(** * Canvas minimap: geometry, rendering, navigation and lifecycle

    A shallow embedding of [src/main.ts] (the [CanvasMinimap] plugin).

    Numbers.  TypeScript [number]s are modelled as exact rationals [Q]:
    every value is finite, [+], [-], [*] and [/ 2] are exact, and
    [Math.min]/[Math.max] are [Qmin]/[Qmax].  Equality of numbers is
    [Qeq] ([==]); records of numbers are compared field by field.

    Collections.  A JavaScript [Map] iterates in insertion order, so
    [canvas.nodes] and [canvas.edges] are association lists. *)

From Stdlib Require Import QArith Qminmax Lqa Lia.
From Stdlib Require Import List String Bool.
Import ListNotations.

Open Scope Q_scope.

Set Warnings "-register-all".

(* ------------------------------------------------------------------ *)
(** ** Geometry primitives ([Vector2], [BoundingBox]: main.ts 29-81) *)

Module Vector2.

Record t := mk { x : Q; y : Q }.

Definition add (a b : t) : t := mk (x a + x b) (y a + y b).

Definition sub (a b : t) : t := mk (x a - x b) (y a - y b).

Definition lenSq (a : t) : Q := x a * x a + y a * y a.

(** Field-wise equality of two vectors. *)
Definition eqv (a b : t) : Prop := x a == x b /\ y a == y b.

End Vector2.

(** The DOM's [SVGRect], as returned by [getBBox()]. *)
Record SVGRect := mkSVGRect
  { rect_x : Q; rect_y : Q; rect_width : Q; rect_height : Q }.

Module BoundingBox.

Record t := mk { minX : Q; minY : Q; maxX : Q; maxY : Q }.

(** [new BoundingBox()]: every constructor argument defaults to 0. *)
Definition new : t := mk 0 0 0 0.

Definition fromRect (bbox : option SVGRect) : t :=
  match bbox with
  | None => new
  | Some r =>
      mk (rect_x r) (rect_y r)
         (rect_x r + rect_width r) (rect_y r + rect_height r)
  end.

Definition width (b : t) : Q := maxX b - minX b.

Definition height (b : t) : Q := maxY b - minY b.

Definition contains (b : t) (p : Vector2.t) : bool :=
  Qle_bool (minX b) (Vector2.x p) && Qle_bool (Vector2.x p) (maxX b)
  && Qle_bool (minY b) (Vector2.y p) && Qle_bool (Vector2.y p) (maxY b).

(** [a < b] on numbers, as a boolean. *)
Definition Qlt_bool (a b : Q) : bool := negb (Qle_bool b a).

Definition isValid (b : t) : bool :=
  Qlt_bool (minX b) (maxX b) && Qlt_bool (minY b) (maxY b).

End BoundingBox.

(* ------------------------------------------------------------------ *)
(** ** Results of code that may throw *)

Inductive Result (A : Type) : Type :=
| Ok (a : A)
| Throw (msg : string).

Arguments Ok {A} a.
Arguments Throw {A} msg.

Definition bind {A B : Type} (r : Result A) (k : A -> Result B) : Result B :=
  match r with
  | Ok a => k a
  | Throw msg => Throw msg
  end.

Notation "x <- r ;; k" := (bind r (fun x => k))
  (at level 61, r at next level, right associativity).

(* ------------------------------------------------------------------ *)
(** ** The host canvas, as the plugin reads it *)

Module Node.

(** A live canvas node.  [unknownData_type] is
    [node.unknownData?.type]; it is ["group"] on group nodes. *)
Record t := mk
  { id : string;
    x : Q; y : Q; width : Q; height : Q;
    label : option string;
    unknownData_type : option string }.

(** The host's [node.bbox]: the node's extent in world coordinates. *)
Definition bbox (n : t) : BoundingBox.t :=
  BoundingBox.mk (x n) (y n) (x n + width n) (y n + height n).

Definition isGroup (n : t) : bool :=
  match unknownData_type n with
  | Some ty => String.eqb ty "group"
  | None => false
  end.

End Node.

Module Edge.

(** One end of a live edge: [e.from] or [e.to]. *)
Record End := mkEnd { node : Node.t; side : string }.

(** A live canvas edge.  [renderMinimap] reads three properties of
    it: [e.from], [e.to] and [e.fromSide].  The last one is a
    property of its own ([None] when the object does not carry it,
    i.e. JavaScript's [undefined]). *)
Record t := mk { from : End; to : End; fromSide : option string }.

End Edge.

(** Calls the plugin makes into the host canvas. *)
Inductive CanvasCall :=
| panTo (x y : Q)
| zoomToBbox (box : BoundingBox.t).

Record Canvas := mkCanvas
  { nodes : list (string * Node.t);
    edges : list (string * Edge.t);
    getViewportBBox : BoundingBox.t }.

(** [Map.prototype.get]. *)
Fixpoint map_get {V : Type} (m : list (string * V)) (k : string) : option V :=
  match m with
  | [] => None
  | (k', v) :: rest => if String.eqb k' k then Some v else map_get rest k
  end.

(** [Map.prototype.set]: an existing key keeps its position. *)
Fixpoint map_set {V : Type} (m : list (string * V)) (k : string) (v : V)
  : list (string * V) :=
  match m with
  | [] => [(k, v)]
  | (k', v') :: rest =>
      if String.eqb k' k then (k, v) :: rest else (k', v') :: map_set rest k v
  end.

(** The values of a [Map], in iteration order. *)
Definition map_values {V : Type} (m : list (string * V)) : list V :=
  map snd m.

(* ------------------------------------------------------------------ *)
(** ** Settings (main.ts 26-27, 89-129) *)

Inductive CanvasNavigationStrategy := PAN | ZOOM | NONE.

Inductive CanvasEventType :=
| CANVAS_MOVED | CANVAS_DIRTY | CANVAS_VIEWPORT_CHANGED | CANVAS_TICK.

Inductive MinimapSide := top_right | top_left | bottom_left | bottom_right.

Module Settings.

Record t := mk
  { width : Q;
    height : Q;
    margin : Q;
    fontSize : Q;
    fontColor : string;
    side : MinimapSide;
    enabled : bool;
    backgroundColor : string;
    groupColor : string;
    nodeColor : string;
    hijackToolbar : bool;
    drawActiveViewport : bool;
    primaryNavigationStrategy : CanvasNavigationStrategy;
    secondaryNavigationStrategy : CanvasNavigationStrategy;
    positionX : Q;
    positionY : Q;
    minimapOpacity : Q }.

End Settings.

Definition DEFAULT_SETTINGS : Settings.t :=
  Settings.mk 400 300 100 10 "white" bottom_right true
    "#f3f0e9" "#bdd5de55" "#c3d6d7" false true ZOOM PAN 0 0 1.

(* ------------------------------------------------------------------ *)
(** ** The rendered scene (the SVG subtree) *)

Inductive Link := linkHorizontal | linkVertical.

Module RectEl.

(** A [<rect>] element.  Geometry attributes that were never set
    read as 0, as in SVG. *)
Record t := mk
  { id : string;
    x : Q; y : Q; width : Q; height : Q;
    fill : string;
    stroke : option string }.

(** [getBBox()] of a [<rect>]. *)
Definition getBBox (r : t) : SVGRect :=
  mkSVGRect (x r) (y r) (width r) (height r).

End RectEl.

(** Elements the renderer appends.  A [path] keeps the link generator
    and the two endpoints handed to it; a [text] keeps its content and
    anchor (its styling attributes are not modelled). *)
Inductive Svg :=
| rect (r : RectEl.t)
| text (content : string) (x y : Q)
| path (link : Link) (source target : Vector2.t)
| g (id : option string) (children : list Svg).

(** [selectAll('rect')]: every [<rect>] below an element, in document
    order. *)
Fixpoint selectAll_rect (s : Svg) : list RectEl.t :=
  match s with
  | rect r => [r]
  | g _ children => flat_map selectAll_rect children
  | _ => []
  end.

(** [.filter(":not(#minimap_viewport)")]. *)
Definition not_minimap_viewport (r : RectEl.t) : bool :=
  negb (String.eqb (RectEl.id r) "minimap_viewport").

(* ------------------------------------------------------------------ *)
(** ** [renderMinimap] (main.ts 194-329) *)

Definition sidePositionOf (node : Node.t) (side : string)
  : Result Vector2.t :=
  let origin := Vector2.mk (Node.x node) (Node.y node) in
  let radius := Vector2.mk (Node.width node / 2) (Node.height node / 2) in
  let center := Vector2.add origin radius in
  if String.eqb side "left" then
    Ok (Vector2.sub center (Vector2.mk (Vector2.x radius) 0))
  else if String.eqb side "right" then
    Ok (Vector2.add center (Vector2.mk (Vector2.x radius) 0))
  else if String.eqb side "top" then
    Ok (Vector2.sub center (Vector2.mk 0 (Vector2.y radius)))
  else if String.eqb side "bottom" then
    Ok (Vector2.add center (Vector2.mk 0 (Vector2.y radius)))
  else Throw ("invalid side " ++ side).

(** [linkAnchor]: its argument is [e.fromSide], which may be
    [undefined]; [undefined == "left"] is false. *)
Definition linkAnchor (side : option string) : Link :=
  match side with
  | Some s =>
      if String.eqb s "left" || String.eqb s "right"
      then linkHorizontal else linkVertical
  | None => linkVertical
  end.

(** The accumulator of the [nodes.forEach] loop. *)
Record NodePass := mkNodePass
  { bbox : BoundingBox.t;
    groups : list (string * Node.t);
    children : list (string * Node.t) }.

(** One iteration of [nodes.forEach]. *)
Definition node_step (acc : NodePass) (node : Node.t) : NodePass :=
  let b := bbox acc in
  let b' :=
    BoundingBox.mk
      (Qmin (BoundingBox.minX b) (Node.x node))
      (Qmin (BoundingBox.minY b) (Node.y node))
      (Qmax (BoundingBox.maxX b) (Node.x node + Node.width node))
      (Qmax (BoundingBox.maxY b) (Node.y node + Node.height node)) in
  if Node.isGroup node
  then mkNodePass b' (map_set (groups acc) (Node.id node) node) (children acc)
  else mkNodePass b' (groups acc) (map_set (children acc) (Node.id node) node).

(** The whole loop, started from [new BoundingBox()] and two empty
    maps. *)
Definition node_pass (ns : list (string * Node.t)) : NodePass :=
  fold_left node_step (map_values ns) (mkNodePass BoundingBox.new [] []).

(** The content bounding box: the local [bbox] after the loop. *)
Definition content_bbox (ns : list (string * Node.t)) : BoundingBox.t :=
  bbox (node_pass ns).

(** The box stored in [this.canvas_bounds]. *)
Definition padded_bounds (margin : Q) (b : BoundingBox.t) : BoundingBox.t :=
  BoundingBox.mk
    (BoundingBox.minX b - margin) (BoundingBox.minY b - margin)
    (BoundingBox.maxX b + margin) (BoundingBox.maxY b + margin).

(** The [viewBox] attribute, as its four numbers. *)
Definition viewBox_of (b : BoundingBox.t) : Q * Q * Q * Q :=
  (BoundingBox.minX b, BoundingBox.minY b,
   BoundingBox.width b, BoundingBox.height b).

(** The [<rect>] drawn for a node: its [x], [y], [width], [height] and
    [id] are copied from the node. *)
Definition node_rect (n : Node.t) (fill : string) (stroke : option string)
  : RectEl.t :=
  RectEl.mk (Node.id n) (Node.x n) (Node.y n) (Node.width n) (Node.height n)
    fill stroke.

(** Body of [groups.forEach]. *)
Definition render_group (s : Settings.t) (n : Node.t) : Svg :=
  let r := rect (node_rect n (Settings.groupColor s) (Some "darkblue"%string)) in
  match Node.label n with
  | Some l =>
      if String.eqb l "" then g None [r]
      else g None [r; text l (Node.x n) (Node.y n)]
  | None => g None [r]
  end.

(** Body of [children.forEach]. *)
Definition render_child (s : Settings.t) (n : Node.t) : Svg :=
  g None [rect (node_rect n (Settings.nodeColor s) None)].

(** Body of [edges.forEach]: the path of one edge, or the error of
    [sidePositionOf]. *)
Definition render_edge (e : Edge.t) : Result Svg :=
  fromPos <- sidePositionOf (Edge.node (Edge.from e)) (Edge.side (Edge.from e)) ;;
  toPos <- sidePositionOf (Edge.node (Edge.to e)) (Edge.side (Edge.to e)) ;;
  Ok (path (linkAnchor (Edge.fromSide e)) fromPos toPos).

(** [edges.forEach]: paths are appended to [fg] one by one; a throw
    leaves the paths appended so far. *)
Fixpoint render_edges (es : list Edge.t) (fg : list Svg)
  : list Svg * option string :=
  match es with
  | [] => (fg, None)
  | e :: rest =>
      match render_edge e with
      | Ok p => render_edges rest (fg ++ [p])
      | Throw msg => (fg, Some msg)
      end
  end.

(** The viewport indicator, as appended to [bg]. *)
Definition viewport_rect : RectEl.t :=
  RectEl.mk "minimap_viewport" 0 0 0 0 "none" None.

(** The [<svg>] element of the overlay. *)
Record SvgRoot := mkSvgRoot
  { viewBox : option (Q * Q * Q * Q);
    svg_children : list Svg }.

(** What [renderMinimap] leaves behind: the new [canvas_bounds], the
    [<svg>] element, and the error if the edge loop threw. *)
Record Rendered := mkRendered
  { r_canvas_bounds : BoundingBox.t;
    r_svg : SvgRoot;
    r_thrown : option string }.

Definition renderMinimap (s : Settings.t) (svg : SvgRoot) (canvas : Canvas)
  : Rendered :=
  let pass := node_pass (nodes canvas) in
  let canvas_bounds := padded_bounds (Settings.margin s) (bbox pass) in
  let fg0 :=
    map (render_group s) (map_values (groups pass))
    ++ map (render_child s) (map_values (children pass)) in
  let '(fg, thrown) := render_edges (map_values (edges canvas)) fg0 in
  let bg :=
    match thrown with
    | None => [rect viewport_rect]
    | Some _ => []
    end in
  mkRendered canvas_bounds
    (mkSvgRoot (Some (viewBox_of canvas_bounds))
       (svg_children svg
        ++ [g (Some "minimap_bg"%string) bg; g (Some "minimap_fg"%string) fg]))
    thrown.

(* ------------------------------------------------------------------ *)
(** ** The click handler installed on the [<svg>] element
       (main.ts 612-649) *)

(** Squared distance from the click point to the top-left corner of a
    box: [Vector2.lenSq(new Vector2(bbox.minX - x, bbox.minY - y))]. *)
Definition corner_distSq (p : Vector2.t) (b : BoundingBox.t) : Q :=
  Vector2.lenSq
    (Vector2.mk (BoundingBox.minX b - Vector2.x p)
                (BoundingBox.minY b - Vector2.y p)).

(** [svg_nodes]: every [<rect>] of the scene but the viewport
    indicator, in document order. *)
Definition node_rects (svg : SvgRoot) : list RectEl.t :=
  filter not_minimap_viewport (flat_map selectAll_rect (svg_children svg)).

(** The rectangles among [svg_nodes] that contain the click point. *)
Definition hit_rects (svg : SvgRoot) (p : Vector2.t) : list RectEl.t :=
  filter
    (fun n => BoundingBox.contains
                (BoundingBox.fromRect (Some (RectEl.getBBox n))) p)
    (node_rects svg).

(** [.map(n => active_canvas.nodes?.get(n.id))].  With no rectangle hit
    the callback never runs; otherwise a missing canvas is a
    [TypeError], and a missing node is [undefined] ([None]). *)
Definition target_nodes_of (active_canvas : option Canvas)
    (hits : list RectEl.t) : Result (list (option Node.t)) :=
  match hits, active_canvas with
  | [], _ => Ok []
  | _ :: _, None => Throw "TypeError: active_canvas is null"
  | _ :: _, Some c =>
      Ok (map (fun n => map_get (nodes c) (RectEl.id n)) hits)
  end.

(** Reading [.bbox] of an entry of [target_nodes]. *)
Definition bbox_of_target (n : option Node.t) : Result BoundingBox.t :=
  match n with
  | Some n => Ok (Node.bbox n)
  | None => Throw "TypeError: target node is undefined"
  end.

(** The [for (const n of target_nodes)] loop, with its two running
    variables [distSq] and [bbox]. *)
Fixpoint nearest_loop (p : Vector2.t) (target_nodes : list (option Node.t))
    (distSq : Q) (bbox : BoundingBox.t) : Result BoundingBox.t :=
  match target_nodes with
  | [] => Ok bbox
  | n :: rest =>
      current_bbox <- bbox_of_target n ;;
      let current_distSq := corner_distSq p current_bbox in
      if BoundingBox.Qlt_bool current_distSq distSq
      then nearest_loop p rest current_distSq current_bbox
      else nearest_loop p rest distSq bbox
  end.

(** The box the click resolves to, if any rectangle was hit. *)
Definition resolve_target (active_canvas : option Canvas) (svg : SvgRoot)
    (p : Vector2.t) : Result (option BoundingBox.t) :=
  target_nodes <- target_nodes_of active_canvas (hit_rects svg p) ;;
  match target_nodes with
  | [] => Ok None
  | first :: _ =>
      bbox <- bbox_of_target first ;;
      b <- nearest_loop p target_nodes (corner_distSq p bbox) bbox ;;
      Ok (Some b)
  end.

(** The calls made for a strategy; [active_canvas?.] skips the call on
    a missing canvas. *)
Definition navigate (navigation_strategy : CanvasNavigationStrategy)
    (active_canvas : option Canvas) (bbox : BoundingBox.t)
  : list CanvasCall :=
  match active_canvas with
  | None => []
  | Some _ =>
      match navigation_strategy with
      | PAN =>
          [panTo
             (BoundingBox.minX bbox
              + (BoundingBox.maxX bbox - BoundingBox.minX bbox) / 2)
             (BoundingBox.minY bbox
              + (BoundingBox.maxY bbox - BoundingBox.minY bbox) / 2)]
      | ZOOM => [zoomToBbox bbox]
      | NONE => []
      end
  end.

(** The handler once the click is known to lie in the rendered
    extent. *)
Definition click_inside (s : Settings.t) (active_canvas : option Canvas)
    (svg : SvgRoot) (p : Vector2.t) (ctrl : bool)
  : Result (list CanvasCall) :=
  target <- resolve_target active_canvas svg p ;;
  match target with
  | None => Ok []
  | Some bbox =>
      let navigation_strategy :=
        if ctrl then Settings.secondaryNavigationStrategy s
        else Settings.primaryNavigationStrategy s in
      Ok (navigate navigation_strategy active_canvas bbox)
  end.

(** The whole handler.  [getBBox] is [svg.node()?.getBBox()], [p] is
    [d3.pointer(e)] and [ctrl] is [Keymap.isModifier(e, 'Ctrl')].  The
    result lists the calls made into the canvas. *)
Definition svg_click (s : Settings.t) (active_canvas : option Canvas)
    (svg : SvgRoot) (getBBox : option SVGRect) (p : Vector2.t) (ctrl : bool)
  : Result (list CanvasCall) :=
  let svg_bbox := BoundingBox.fromRect getBBox in
  if negb (BoundingBox.contains svg_bbox p) then Ok []
  else click_inside s active_canvas svg p ctrl.

(* ------------------------------------------------------------------ *)
(** ** The document *)

(** A child of [<body>]: its [id] and the [<svg>] it holds.  The
    overlay is the element with id [_minimap_]; its title bar and
    marker definitions hold no [<rect>] and are not modelled. *)
Record Elem := mkElem { el_id : string; el_svg : SvgRoot }.

(** [select('#id')] on the body: is there a match? *)
Definition select_empty (id : string) (body : list Elem) : bool :=
  negb (existsb (fun e => String.eqb (el_id e) id) body).

(** [select('#id').remove()]: the first match is removed. *)
Fixpoint remove_first (id : string) (body : list Elem) : list Elem :=
  match body with
  | [] => []
  | e :: rest =>
      if String.eqb (el_id e) id then rest else e :: remove_first id rest
  end.

(** Apply [f] to the first element with the given id. *)
Fixpoint on_first (id : string) (f : Elem -> Elem) (body : list Elem)
  : list Elem :=
  match body with
  | [] => []
  | e :: rest =>
      if String.eqb (el_id e) id then f e :: rest
      else e :: on_first id f rest
  end.

(** Apply [f] to the first [<rect id="minimap_viewport">] of a subtree,
    in document order; [done] tells whether it was already found. *)
Fixpoint on_viewport (f : RectEl.t -> RectEl.t) (s : Svg) (done : bool)
  : Svg * bool :=
  match s with
  | rect r =>
      if done then (s, true)
      else if String.eqb (RectEl.id r) "minimap_viewport"
           then (rect (f r), true)
           else (s, false)
  | g i cs =>
      let '(cs', d) :=
        (fix go (l : list Svg) (done : bool) : list Svg * bool :=
           match l with
           | [] => ([], done)
           | c :: rest =>
               let '(c', d1) := on_viewport f c done in
               let '(rest', d2) := go rest d1 in
               (c' :: rest', d2)
           end) cs done in
      (g i cs', d)
  | _ => (s, done)
  end.

Definition on_viewport_svg (f : RectEl.t -> RectEl.t) (svg : SvgRoot)
  : SvgRoot :=
  match on_viewport f (g None (svg_children svg)) false with
  | (g _ cs, _) => mkSvgRoot (viewBox svg) cs
  | _ => svg
  end.

(* ------------------------------------------------------------------ *)
(** ** The event bus and the patched canvas prototype *)

(** Callbacks subscribed to the bus: the plugin only ever subscribes
    [CanvasMinimap.onCanvasUpdate]. *)
Inductive Handler := onCanvasUpdate.

Definition CanvasEventType_eqb (a b : CanvasEventType) : bool :=
  match a, b with
  | CANVAS_MOVED, CANVAS_MOVED
  | CANVAS_DIRTY, CANVAS_DIRTY
  | CANVAS_VIEWPORT_CHANGED, CANVAS_VIEWPORT_CHANGED
  | CANVAS_TICK, CANVAS_TICK => true
  | _, _ => false
  end.

Definition Handler_eqb (a b : Handler) : bool :=
  match a, b with
  | onCanvasUpdate, onCanvasUpdate => true
  end.

(** The host's [Events] class: [on] appends a subscription, [off]
    drops the subscriptions of a callback under a name, [trigger] runs
    the callbacks of a name in registration order. *)
Module Events.

Definition t := list (CanvasEventType * Handler).

Definition on (evs : t) (name : CanvasEventType) (fn : Handler) : t :=
  evs ++ [(name, fn)].

Definition off (evs : t) (name : CanvasEventType) (fn : Handler) : t :=
  filter
    (fun r => negb (CanvasEventType_eqb (fst r) name
                    && Handler_eqb (snd r) fn))
    evs.

Definition handlers (evs : t) (name : CanvasEventType) : list Handler :=
  map snd (filter (fun r => CanvasEventType_eqb (fst r) name) evs).

End Events.

(** A method slot of the canvas prototype: the host's own method, or a
    wrapper installed by [around] that calls [next] and then dispatches
    an event. *)
Inductive Method :=
| original
| wrapper (type : CanvasEventType) (next : Method).

Record CanvasPrototype := mkCanvasPrototype
  { markMoved : Method;
    markDirty : Method;
    markViewportChanged : Method;
    requestFrame : Method }.

(* ------------------------------------------------------------------ *)
(** ** The plugin and its lifecycle (main.ts 331-424, 468-655) *)

Record Plugin := mkPlugin
  { settings : Settings.t;
    canvas_bounds : BoundingBox.t;
    canvas_patched : bool;
    canvas_event : Events.t;
    registered : nat  (* uninstallers handed to [this.register] *) }.

(** Everything the lifecycle operations touch.  [dispatched] records
    the calls of [dispatchCanvasEvent], oldest first. *)
Record World := mkWorld
  { plugin : Plugin;
    body : list Elem;
    prototype : CanvasPrototype;
    dispatched : list CanvasEventType }.

Definition renderCanvasViewport (s : Settings.t) (canvas : option Canvas)
    (body : list Elem) : list Elem :=
  if negb (Settings.drawActiveViewport s) then body
  else
    match canvas with
    | None => body
    | Some c =>
        let canvas_bbox := getViewportBBox c in
        let place (r : RectEl.t) :=
          RectEl.mk (RectEl.id r)
            (BoundingBox.minX canvas_bbox) (BoundingBox.minY canvas_bbox)
            (BoundingBox.maxX canvas_bbox - BoundingBox.minX canvas_bbox)
            (BoundingBox.maxY canvas_bbox - BoundingBox.minY canvas_bbox)
            "azure" (Some "orange"%string) in
        on_first "_minimap_"
          (fun e => mkElem (el_id e) (on_viewport_svg place (el_svg e)))
          body
    end.

(** Running one subscribed callback; [active] is what
    [getActiveCanvas()] returns. *)
Definition run_handler (active : option Canvas) (h : Handler) (w : World)
  : World :=
  match h with
  | onCanvasUpdate =>
      mkWorld (plugin w)
        (renderCanvasViewport (settings (plugin w)) active (body w))
        (prototype w) (dispatched w)
  end.

Definition dispatchCanvasEvent (active : option Canvas)
    (type : CanvasEventType) (w : World) : World :=
  let w1 :=
    mkWorld (plugin w) (body w) (prototype w) (dispatched w ++ [type]) in
  fold_left (fun w h => run_handler active h w)
    (Events.handlers (canvas_event (plugin w)) type) w1.

(** Calling a method slot: a wrapper first calls [next], then
    dispatches.  The host's own method does not touch this state. *)
Fixpoint call (active : option Canvas) (m : Method) (w : World) : World :=
  match m with
  | original => w
  | wrapper type next => dispatchCanvasEvent active type (call active next w)
  end.

Definition patchCanvas (canvas : option Canvas) (w : World) : World :=
  let p := plugin w in
  let '(p1, proto1) :=
    match canvas with
    | Some _ =>
        let proto := prototype w in
        (mkPlugin (settings p) (canvas_bounds p) true (canvas_event p)
           (S (registered p)),
         mkCanvasPrototype
           (wrapper CANVAS_MOVED (markMoved proto))
           (wrapper CANVAS_DIRTY (markDirty proto))
           (wrapper CANVAS_VIEWPORT_CHANGED (markViewportChanged proto))
           (wrapper CANVAS_TICK (requestFrame proto)))
    | None => (p, prototype w)
    end in
  mkWorld
    (mkPlugin (settings p1) (canvas_bounds p1) (canvas_patched p1)
       (Events.on (canvas_event p1) CANVAS_TICK onCanvasUpdate)
       (registered p1))
    (body w) proto1 (dispatched w).

Definition unloadMinimap (active : option Canvas) (w : World) : World :=
  match active with
  | Some _ =>
      let p := plugin w in
      let body1 :=
        if negb (select_empty "_minimap_" (body w))
        then remove_first "_minimap_" (body w) else body w in
      let body2 :=
        if negb (select_empty "_minimap_toolbar_" body1)
        then remove_first "_minimap_toolbar_" body1 else body1 in
      mkWorld
        (mkPlugin (settings p) (canvas_bounds p) (canvas_patched p)
           (Events.off (canvas_event p) CANVAS_TICK onCanvasUpdate)
           (registered p))
        body2 (prototype w) (dispatched w)
  | None => w
  end.

(** [setupMinimap]; the second component is the error thrown by
    [renderMinimap], if any. *)
Definition setupMinimap (active : option Canvas) (w : World)
  : World * option string :=
  if negb (Settings.enabled (settings (plugin w))) then (w, None)
  else
    match active with
    | None => (w, None)
    | Some active_canvas =>
        let w1 := patchCanvas (Some active_canvas) w in
        let body1 :=
          if select_empty "_minimap_" (body w1)
          then body w1 ++ [mkElem "_minimap_" (mkSvgRoot None [])]
          else body w1 in
        let p := plugin w1 in
        let svg :=
          match find (fun e => String.eqb (el_id e) "_minimap_") body1 with
          | Some e => el_svg e
          | None => mkSvgRoot None []
          end in
        let r := renderMinimap (settings p) svg active_canvas in
        (mkWorld
           (mkPlugin (settings p) (r_canvas_bounds r) (canvas_patched p)
              (canvas_event p) (registered p))
           (on_first "_minimap_" (fun e => mkElem (el_id e) (r_svg r)) body1)
           (prototype w1) (dispatched w1),
         r_thrown r)
    end.

Definition reloadMinimap (active : option Canvas) (w : World)
  : World * option string :=
  setupMinimap active (unloadMinimap active w).

(** The plugin right after [onload], before the layout is ready: no
    overlay in the document, nothing subscribed, nothing patched. *)
Definition initial (s : Settings.t) : World :=
  mkWorld (mkPlugin s BoundingBox.new false [] 0) []
    (mkCanvasPrototype original original original original) [].

(** One thing that can happen to the plugin: a lifecycle operation,
    the host calling one of the four canvas methods, or the settings
    tab storing new settings. *)
Inductive step : World -> World -> Prop :=
| step_setup active w : step w (fst (setupMinimap active w))
| step_unload active w : step w (unloadMinimap active w)
| step_reload active w : step w (fst (reloadMinimap active w))
| step_markMoved active w :
    step w (call active (markMoved (prototype w)) w)
| step_markDirty active w :
    step w (call active (markDirty (prototype w)) w)
| step_markViewportChanged active w :
    step w (call active (markViewportChanged (prototype w)) w)
| step_requestFrame active w :
    step w (call active (requestFrame (prototype w)) w)
| step_settings s w :
    step w
      (mkWorld
         (mkPlugin s (canvas_bounds (plugin w)) (canvas_patched (plugin w))
            (canvas_event (plugin w)) (registered (plugin w)))
         (body w) (prototype w) (dispatched w)).

Inductive reachable (s : Settings.t) : World -> Prop :=
| reach_initial : reachable s (initial s)
| reach_step w w' : reachable s w -> step w w' -> reachable s w'.

(* ------------------------------------------------------------------ *)
(** ** Specification vocabulary *)

(** [m] is the minimum of the numbers in [l]. *)
Definition is_min (m : Q) (l : list Q) : Prop :=
  (forall v, In v l -> m <= v) /\ (exists v, In v l /\ m == v).

(** [m] is the maximum of the numbers in [l]. *)
Definition is_max (m : Q) (l : list Q) : Prop :=
  (forall v, In v l -> v <= m) /\ (exists v, In v l /\ m == v).

Definition node_xs (ns : list (string * Node.t)) : list Q :=
  map Node.x (map_values ns).

Definition node_ys (ns : list (string * Node.t)) : list Q :=
  map Node.y (map_values ns).

Definition node_rights (ns : list (string * Node.t)) : list Q :=
  map (fun n => Node.x n + Node.width n) (map_values ns).

Definition node_bottoms (ns : list (string * Node.t)) : list Q :=
  map (fun n => Node.y n + Node.height n) (map_values ns).

(** A computation returned [v], up to equality of numbers. *)
Definition returns (r : Result Vector2.t) (v : Vector2.t) : Prop :=
  exists v', r = Ok v' /\ Vector2.eqv v' v.

(** A click on the border of a box. *)
Definition on_border (b : BoundingBox.t) (p : Vector2.t) : Prop :=
  (BoundingBox.minX b <= Vector2.x p <= BoundingBox.maxX b /\
   BoundingBox.minY b <= Vector2.y p <= BoundingBox.maxY b) /\
  (Vector2.x p == BoundingBox.minX b \/ Vector2.x p == BoundingBox.maxX b \/
   Vector2.y p == BoundingBox.minY b \/ Vector2.y p == BoundingBox.maxY b).

(* ------------------------------------------------------------------ *)
(** ** Sample canvases *)

Definition plain_node (id : string) (x y width height : Q) : Node.t :=
  Node.mk id x y width height None None.

Definition group_node (id : string) (x y width height : Q) : Node.t :=
  Node.mk id x y width height None (Some "group"%string).

Definition canvas_of (ns : list Node.t) : Canvas :=
  mkCanvas (map (fun n => (Node.id n, n)) ns) [] BoundingBox.new.

(** One node away from the origin. *)
Definition snapshot_positive : list (string * Node.t) :=
  [("n"%string, plain_node "n" 50 50 20 20)].

(** A group [g1] holding a node [n1]. *)
Definition canvas_g1_n1 : Canvas :=
  canvas_of [group_node "g1" 0 0 200 200; plain_node "n1" 50 50 20 20].

(** Two nodes that overlap at (50,50). *)
Definition canvas_overlap : Canvas :=
  canvas_of [plain_node "a" 40 40 20 20; plain_node "b" 45 45 20 20].

Definition settings_margin (m : Q) : Settings.t :=
  Settings.mk 400 300 m 10 "white" bottom_right true
    "#f3f0e9" "#bdd5de55" "#c3d6d7" false true ZOOM PAN 0 0 1.

Definition empty_svg : SvgRoot := mkSvgRoot None [].

(** The scene [renderMinimap] draws for a canvas on a fresh [<svg>]. *)
Definition scene_of (s : Settings.t) (canvas : Canvas) : SvgRoot :=
  r_svg (renderMinimap s empty_svg canvas).

(** The strategy the handler picks. *)
Definition strategy_for (s : Settings.t) (ctrl : bool)
  : CanvasNavigationStrategy :=
  if ctrl then Settings.secondaryNavigationStrategy s
  else Settings.primaryNavigationStrategy s.

(** The events a call of a method slot dispatches, oldest first. *)
Fixpoint events_of (m : Method) : list CanvasEventType :=
  match m with
  | original => []
  | wrapper type next => events_of next ++ [type]
  end.

(** Number of overlay elements in the document. *)
Definition overlay_count (body : list Elem) : nat :=
  List.length (filter (fun e => String.eqb (el_id e) "_minimap_") body).

(** Teardown is complete: no overlay element is left and nothing is
    subscribed to [CANVAS_TICK]. *)
Definition torn_down (w : World) : Prop :=
  (forall e, In e (body w) -> el_id e <> "_minimap_"%string) /\
  (forall h, ~ In (CANVAS_TICK, h) (canvas_event (plugin w))).

(** The plugin after [setupMinimap] ran on an active canvas. *)
Definition world_loaded : World :=
  fst (setupMinimap (Some canvas_g1_n1) (initial DEFAULT_SETTINGS)).

(** A live edge leaving the left side of [n1] and entering the right
    side of [n2]; like every live edge it has [from] and [to] and no
    [fromSide] property. *)
Definition live_edge (n1 n2 : Node.t) : Edge.t :=
  Edge.mk (Edge.mkEnd n1 "left") (Edge.mkEnd n2 "right") None.

(** [canvas.nodes] maps every node's id to the node: keys are the node
    ids, and a [Map] holds a key once. *)
Definition keyed_by_id (ns : list (string * Node.t)) : Prop :=
  Forall (fun kv => fst kv = Node.id (snd kv)) ns /\ NoDup (map fst ns).

(** Squared distance from the click point to the top-left corner of a
    rendered rectangle. *)
Definition rect_corner_distSq (p : Vector2.t) (r : RectEl.t) : Q :=
  Vector2.lenSq
    (Vector2.mk (RectEl.x r - Vector2.x p) (RectEl.y r - Vector2.y p)).

(* ------------------------------------------------------------------ *)
(** ** Further helpers of main.ts *)

(** [clamp] (main.ts 83-85): [Math.min(Math.max(x, min), max)]. *)
Definition clamp (x min max : Q) : Q := Qmin (Qmax x min) max.

(** The four sides [sidePositionOf] accepts. *)
Definition valid_side (side : string) : bool :=
  String.eqb side "left" || String.eqb side "right"
  || String.eqb side "top" || String.eqb side "bottom".

(** Both ends of an edge name a side [sidePositionOf] accepts. *)
Definition edge_valid (e : Edge.t) : bool :=
  valid_side (Edge.side (Edge.from e)) && valid_side (Edge.side (Edge.to e)).

(** The rectangle drawn for a group node and for any other node. *)
Definition group_rect (s : Settings.t) (n : Node.t) : RectEl.t :=
  node_rect n (Settings.groupColor s) (Some "darkblue"%string).

Definition child_rect (s : Settings.t) (n : Node.t) : RectEl.t :=
  node_rect n (Settings.nodeColor s) None.

(** No node of the canvas uses the id of the viewport indicator. *)
Definition no_viewport_id (ns : list (string * Node.t)) : Prop :=
  forall n, In n (map_values ns) -> Node.id n <> "minimap_viewport"%string.

(** The groups and the other nodes as [renderMinimap] draws them into
    [minimap_fg], before any edge. *)
Definition node_layer (s : Settings.t) (canvas : Canvas) : list Svg :=
  map (render_group s) (map_values (groups (node_pass (nodes canvas))))
  ++ map (render_child s) (map_values (children (node_pass (nodes canvas)))).

(** [paths] are the paths drawn for the edges [es], one by one. *)
Definition drawn_as (es : list Edge.t) (paths : list Svg) : Prop :=
  Forall2 (fun e p => render_edge e = Ok p) es paths.

(** A canvas with one edge between [n1] and [n2]. *)
Definition canvas_with_edge (e : Edge.t) : Canvas :=
  mkCanvas
    [("g1"%string, group_node "g1" 0 0 200 200);
     ("n1"%string, plain_node "n1" 50 50 20 20)]
    [("e"%string, e)] BoundingBox.new.

Definition edge_between (from_side to_side : string) : Edge.t :=
  Edge.mk (Edge.mkEnd (group_node "g1" 0 0 200 200) from_side)
          (Edge.mkEnd (plain_node "n1" 50 50 20 20) to_side) None.

(** Structural induction over a scene: a group holds a property when
    all its children do. *)
Fixpoint Svg_induction (P : Svg -> Prop)
    (Hrect : forall r, P (rect r))
    (Htext : forall c x y, P (text c x y))
    (Hpath : forall l a b, P (path l a b))
    (Hg : forall i cs, Forall P cs -> P (g i cs))
    (s : Svg) : P s :=
  match s with
  | rect r => Hrect r
  | text c x y => Htext c x y
  | path l a b => Hpath l a b
  | g i cs =>
      Hg i cs
        ((fix go (l : list Svg) : Forall P l :=
            match l with
            | [] => Forall_nil P
            | c :: rest =>
                Forall_cons c (Svg_induction P Hrect Htext Hpath Hg c)
                  (go rest)
            end) cs)
  end.

(** The walk of [on_viewport] over the children of a group. *)
Fixpoint on_viewport_list (f : RectEl.t -> RectEl.t) (l : list Svg)
    (done : bool) : list Svg * bool :=
  match l with
  | [] => ([], done)
  | c :: rest =>
      let '(c', d1) := on_viewport f c done in
      let '(rest', d2) := on_viewport_list f rest d1 in
      (c' :: rest', d2)
  end.

(** What hit-testing reads of a body element: its id, its view box and
    its node rectangles. *)
Definition hit_view (e : Elem) : string * option (Q * Q * Q * Q) * list RectEl.t :=
  (el_id e, viewBox (el_svg e), node_rects (el_svg e)).

(** The geometry [renderCanvasViewport] gives the indicator. *)
Definition placed (canvas_bbox : BoundingBox.t) (r : RectEl.t) : RectEl.t :=
  RectEl.mk (RectEl.id r)
    (BoundingBox.minX canvas_bbox) (BoundingBox.minY canvas_bbox)
    (BoundingBox.maxX canvas_bbox - BoundingBox.minX canvas_bbox)
    (BoundingBox.maxY canvas_bbox - BoundingBox.minY canvas_bbox)
    "azure" (Some "orange"%string).

(** Every slot of the prototype dispatches its own event once per
    registered uninstaller, and every subscription is for
    [CANVAS_TICK]. *)
Definition stacked (w : World) : Prop :=
  let n := registered (plugin w) in
  events_of (markMoved (prototype w)) = repeat CANVAS_MOVED n /\
  events_of (markDirty (prototype w)) = repeat CANVAS_DIRTY n /\
  events_of (markViewportChanged (prototype w))
  = repeat CANVAS_VIEWPORT_CHANGED n /\
  events_of (requestFrame (prototype w)) = repeat CANVAS_TICK n /\
  Forall (fun r => fst r = CANVAS_TICK) (canvas_event (plugin w)) /\
  Forall (fun e => el_id e = "_minimap_"%string) (body w).

(* ------------------------------------------------------------------ *)
(** ** Panning and zooming the minimap's own view
       (the longer revision of main.ts: lines 611-697 and 735-771)

    [viewBox] is the attribute as [renderMinimap] writes it: four
    numbers.  Reading it when it was never set is a [TypeError].
    Divisions are exact; the model follows the code where no divisor
    is zero. *)

Record DragState := mkDragState
  { isSvgDragging : bool;
    isRightDragging : bool;
    lastX : Q;
    lastY : Q }.

(** The four variables as [setupMinimap] declares them. *)
Definition drag_initial : DragState := mkDragState false false 0 0.

(** The [mousedown] handler of the [<svg>]; [button] is [e.button]. *)
Definition svg_mousedown (button : Z) (clientX clientY : Q) (d : DragState)
  : DragState :=
  if Z.eqb button 0 then mkDragState true (isRightDragging d) clientX clientY
  else if Z.eqb button 2
       then mkDragState (isSvgDragging d) true clientX clientY
       else d.

Definition handleSvgMouseMove (s : Settings.t) (clientX clientY : Q)
    (d : DragState) (viewBox : option (Q * Q * Q * Q))
  : Result (DragState * option (Q * Q * Q * Q)) :=
  if isSvgDragging d || isRightDragging d then
    let deltaX := clientX - lastX d in
    let deltaY := clientY - lastY d in
    match viewBox with
    | None => Throw "TypeError: viewBox is null"
    | Some (x, y, width, height) =>
        let scaleX := Settings.width s / width in
        let scaleY := Settings.height s / height in
        let actualDeltaX := (- deltaX) / scaleX in
        let actualDeltaY := (- deltaY) / scaleY in
        Ok (mkDragState (isSvgDragging d) (isRightDragging d) clientX clientY,
            Some (x + actualDeltaX, y + actualDeltaY, width, height))
    end
  else Ok (d, viewBox).

Definition handleSvgMouseUp (d : DragState) : DragState :=
  if isSvgDragging d || isRightDragging d
  then mkDragState false false (lastX d) (lastY d)
  else d.

(** The click handler of the longer revision: the handler above behind
    a drag guard. *)
Definition svg_click_guarded (d : DragState) (s : Settings.t)
    (active_canvas : option Canvas) (svg : SvgRoot)
    (getBBox : option SVGRect) (p : Vector2.t) (ctrl : bool)
  : Result (list CanvasCall) :=
  if isSvgDragging d || isRightDragging d then Ok []
  else svg_click s active_canvas svg getBBox p ctrl.

(** The [wheel] handler; [mouse] is [d3.pointer(e, svg.node())]. *)
Definition svg_wheel (canvas_bounds : BoundingBox.t) (ctrlKey : bool)
    (deltaY : Q) (mouse : Vector2.t) (viewBox : option (Q * Q * Q * Q))
  : Result (option (Q * Q * Q * Q)) :=
  if ctrlKey then
    let baseViewWidth := BoundingBox.width canvas_bounds in
    let baseViewHeight := BoundingBox.height canvas_bounds in
    match viewBox with
    | None => Throw "TypeError: viewBox is null"
    | Some (currentX, currentY, currentWidth, currentHeight) =>
        let zoomFactor :=
          if BoundingBox.Qlt_bool deltaY 0 then 9 / 10 else 11 / 10 in
        let newWidth :=
          Qmax 50 (Qmin baseViewWidth (currentWidth * zoomFactor)) in
        let newHeight :=
          Qmax 50 (Qmin baseViewHeight (currentHeight * zoomFactor)) in
        let newCenterX :=
          currentX
          + (Vector2.x mouse - currentX) * (1 - newWidth / currentWidth) in
        let newCenterY :=
          currentY
          + (Vector2.y mouse - currentY) * (1 - newHeight / currentHeight) in
        Ok (Some (newCenterX, newCenterY, newWidth, newHeight))
    end
  else Ok viewBox.

(** Field-wise equality of two view boxes. *)
Definition viewBox_eqv (a b : Q * Q * Q * Q) : Prop :=
  let '(ax, ay, aw, ah) := a in
  let '(bx, by_, bw, bh) := b in
  ax == bx /\ ay == by_ /\ aw == bw /\ ah == bh.

(* ------------------------------------------------------------------ *)
(** ** Resizing the overlay (the longer revision: lines 854-928) *)

Inductive Horizontal := h_left | h_right | h_both.
Inductive Vertical := v_top | v_bottom | v_both.

(** Size and position of the overlay [<div>]. *)
Record DivBox := mkDivBox
  { div_width : Q; div_height : Q; div_left : Q; div_top : Q }.

(** [handleMouseMove] inside [startResize]: the new size and position
    of the overlay, which are also stored in the settings. *)
Definition resize_handleMouseMove (horizontal : Horizontal)
    (vertical : Vertical) (startX startY : Q) (start : DivBox)
    (clientX clientY : Q) : DivBox :=
  let deltaX := clientX - startX in
  let deltaY := clientY - startY in
  let '(newWidth, newLeft) :=
    match horizontal with
    | h_right | h_both => (Qmax 200 (div_width start + deltaX), div_left start)
    | h_left =>
        let potentialNewWidth := div_width start - deltaX in
        if Qle_bool 200 potentialNewWidth
        then (potentialNewWidth, div_left start + deltaX)
        else (div_width start, div_left start)
    end in
  let '(newHeight, newTop) :=
    match vertical with
    | v_bottom | v_both => (Qmax 150 (div_height start + deltaY), div_top start)
    | v_top =>
        let potentialNewHeight := div_height start - deltaY in
        if Qle_bool 150 potentialNewHeight
        then (potentialNewHeight, div_top start + deltaY)
        else (div_height start, div_top start)
    end in
  mkDivBox newWidth newHeight newLeft newTop.

(** The eight resize areas and the axes each one hands to
    [startResize]. *)
Inductive ResizeArea :=
| area_top | area_right | area_bottom | area_left
| area_top_left | area_top_right | area_bottom_left | area_bottom_right.

Definition startResize_axes (a : ResizeArea) : Horizontal * Vertical :=
  match a with
  | area_right => (h_right, v_both)
  | area_left => (h_left, v_both)
  | area_bottom => (h_both, v_bottom)
  | area_top => (h_both, v_top)
  | area_top_left => (h_left, v_top)
  | area_top_right => (h_right, v_top)
  | area_bottom_left => (h_left, v_bottom)
  | area_bottom_right => (h_right, v_bottom)
  end.

(** One mouse move while an area is dragged. *)
Definition resize_area (a : ResizeArea) (startX startY : Q) (start : DivBox)
    (clientX clientY : Q) : DivBox :=
  resize_handleMouseMove (fst (startResize_axes a)) (snd (startResize_axes a))
    startX startY start clientX clientY.

(* ------------------------------------------------------------------ *)
(** ** [moveToPresetPosition] (main.ts 427-466) *)

(** The position the method stores, or [None] when it returns early:
    no active canvas, or no overlay in the document. *)
Definition moveToPresetPosition (s : Settings.t) (active : option Canvas)
    (body : list Elem) (innerWidth innerHeight : Q) : option (Q * Q) :=
  match active with
  | None => None
  | Some _ =>
      if select_empty "_minimap_" body then None
      else
        Some
          match Settings.side s with
          | top_right => (innerWidth - Settings.width s - 20, 20)
          | top_left => (20, 20)
          | bottom_left => (20, innerHeight - Settings.height s - 20)
          | bottom_right =>
              (innerWidth - Settings.width s - 20,
               innerHeight - Settings.height s - 20)
          end
  end.

(* ------------------------------------------------------------------ *)
(** ** Translations (i18n.ts) *)

(** A table of translations: the text of a key, or nothing
    ([undefined]). *)
Definition Locale := string -> option string.

(** [systemLocale]: the table of the system language, or [None] for
    the plain string ["en"] the code falls back to.  [en] and [zhCn]
    are the two tables the module imports. *)
Definition systemLocale (en zhCn : Locale) (moment_locale : string)
  : option Locale :=
  if String.eqb moment_locale "en" then Some en
  else if String.eqb moment_locale "zh-cn" then Some zhCn
  else None.

(** [t(str)]; [a || b] takes [b] when [a] is [undefined] or empty. *)
Definition t (en zhCn : Locale) (moment_locale : string) (str : string)
  : option string :=
  match systemLocale en zhCn moment_locale with
  | None => en str
  | Some table =>
      match table str with
      | Some v => if String.eqb v "" then en str else Some v
      | None => en str
      end
  end.

(** Sample translation tables. *)
Definition sample_en : Locale :=
  fun k => if String.eqb k "reload" then Some "Reload minimap"%string
           else if String.eqb k "toggle" then Some "Toggle minimap"%string
           else None.

Definition sample_zhCn : Locale :=
  fun k => if String.eqb k "reload" then Some "reload-zh"%string
           else if String.eqb k "toggle" then Some ""%string
           else None.

(* ------------------------------------------------------------------ *)
(** ** Vocabulary for the hit test *)

(** The click point lies in the drawn rectangle, borders included. *)
Definition rect_contains (r : RectEl.t) (p : Vector2.t) : Prop :=
  (RectEl.x r <= Vector2.x p <= RectEl.x r + RectEl.width r) /\
  (RectEl.y r <= Vector2.y p <= RectEl.y r + RectEl.height r).

(** [r] is a rectangle of the scene, is not the viewport indicator,
    and contains the click point. *)
Definition is_hit (svg : SvgRoot) (p : Vector2.t) (r : RectEl.t) : Prop :=
  In r (flat_map selectAll_rect (svg_children svg)) /\
  RectEl.id r <> "minimap_viewport"%string /\
  rect_contains r p.

(** The click resolves to the node whose drawn rectangle has the
    nearest top-left corner among the rectangles that contain the
    click point. *)
Definition picks_nearest_rect_corner (canvas : Canvas) (svg : SvgRoot)
    (p : Vector2.t) : Prop :=
  forall b,
    resolve_target (Some canvas) svg p = Ok (Some b) ->
    exists r n,
      is_hit svg p r /\
      map_get (nodes canvas) (RectEl.id r) = Some n /\
      b = Node.bbox n /\
      forall r', is_hit svg p r' ->
                 rect_corner_distSq p r <= rect_corner_distSq p r'.

(** [canvas_overlap] after node [a] was moved to (49,49). *)
Definition canvas_moved : Canvas :=
  canvas_of [plain_node "a" 49 49 20 20; plain_node "b" 45 45 20 20].

(** The minimap was set up on [canvas_overlap]; then the host moved
    node [a] and called [markMoved]. *)
Definition world_stale : World :=
  let w := fst (setupMinimap (Some canvas_overlap) (initial DEFAULT_SETTINGS)) in
  call (Some canvas_moved) (markMoved (prototype w)) w.

(** [canvas_overlap] with a third node whose corner (51,51) is nearer
    to (50,50) but whose box does not contain that point. *)
Definition canvas_three : Canvas :=
  canvas_of [plain_node "a" 40 40 20 20; plain_node "b" 45 45 20 20;
             plain_node "c" 51 51 20 20].

(* ------------------------------------------------------------------ *)
(** ** Geometry lemmas *)

Lemma Qlt_bool_iff (a b : Q) : BoundingBox.Qlt_bool a b = true <-> a < b.
Proof.
  unfold BoundingBox.Qlt_bool. rewrite negb_true_iff.
  split.
  - intro H. apply Qnot_le_lt. intro Hle.
    apply Qle_bool_iff in Hle. congruence.
  - intro H. destruct (Qle_bool b a) eqn:E; [|reflexivity].
    apply Qle_bool_iff in E. lra.
Qed.

Lemma contains_iff (b : BoundingBox.t) (p : Vector2.t) :
  BoundingBox.contains b p = true <->
  (BoundingBox.minX b <= Vector2.x p /\ Vector2.x p <= BoundingBox.maxX b) /\
  (BoundingBox.minY b <= Vector2.y p /\ Vector2.y p <= BoundingBox.maxY b).
Proof.
  unfold BoundingBox.contains.
  rewrite !andb_true_iff, !Qle_bool_iff. tauto.
Qed.

Lemma bbox_node_step (acc : NodePass) (n : Node.t) :
  bbox (node_step acc n) =
  BoundingBox.mk
    (Qmin (BoundingBox.minX (bbox acc)) (Node.x n))
    (Qmin (BoundingBox.minY (bbox acc)) (Node.y n))
    (Qmax (BoundingBox.maxX (bbox acc)) (Node.x n + Node.width n))
    (Qmax (BoundingBox.maxY (bbox acc)) (Node.y n + Node.height n)).
Proof.
  unfold node_step. destruct (Node.isGroup n); reflexivity.
Qed.

(** The loop keeps the four fields apart: each one is a running
    minimum or maximum of its own column. *)
Lemma bbox_fold (l : list Node.t) (acc : NodePass) :
  let b := bbox acc in
  let b' := bbox (fold_left node_step l acc) in
  BoundingBox.minX b' = fold_left Qmin (map Node.x l) (BoundingBox.minX b) /\
  BoundingBox.minY b' = fold_left Qmin (map Node.y l) (BoundingBox.minY b) /\
  BoundingBox.maxX b' =
    fold_left Qmax (map (fun n => Node.x n + Node.width n) l)
      (BoundingBox.maxX b) /\
  BoundingBox.maxY b' =
    fold_left Qmax (map (fun n => Node.y n + Node.height n) l)
      (BoundingBox.maxY b).
Proof.
  revert acc. induction l as [|n l IH]; intro acc; cbn [fold_left map].
  - repeat split.
  - pose proof (IH (node_step acc n)) as H. cbv zeta in H.
    rewrite (bbox_node_step acc n) in H. exact H.
Qed.

Lemma fold_min_le (l : list Q) (a : Q) :
  fold_left Qmin l a <= a /\ forall v, In v l -> fold_left Qmin l a <= v.
Proof.
  revert a. induction l as [|h l IH]; intro a; simpl.
  - split; [lra | tauto].
  - destruct (IH (Qmin a h)) as [H1 H2]. split.
    + pose proof (Q.le_min_l a h). lra.
    + intros v [<- | Hin]; [|auto].
      pose proof (Q.le_min_r a h). lra.
Qed.

Lemma fold_min_attained (l : list Q) (a : Q) :
  fold_left Qmin l a == a \/ exists v, In v l /\ fold_left Qmin l a == v.
Proof.
  revert a. induction l as [|h l IH]; intro a; simpl.
  - left; reflexivity.
  - destruct (IH (Qmin a h)) as [H | (v & Hin & Hv)].
    + destruct (Q.min_dec a h) as [E | E].
      * left; exact (Qeq_trans _ _ _ H E).
      * right; exists h; split;
          [left; reflexivity | exact (Qeq_trans _ _ _ H E)].
    + right; exists v; split; [right; exact Hin | exact Hv].
Qed.

Lemma fold_max_ge (l : list Q) (a : Q) :
  a <= fold_left Qmax l a /\ forall v, In v l -> v <= fold_left Qmax l a.
Proof.
  revert a. induction l as [|h l IH]; intro a; simpl.
  - split; [lra | tauto].
  - destruct (IH (Qmax a h)) as [H1 H2]. split.
    + pose proof (Q.le_max_l a h). lra.
    + intros v [<- | Hin]; [|auto].
      pose proof (Q.le_max_r a h). lra.
Qed.

Lemma fold_max_attained (l : list Q) (a : Q) :
  fold_left Qmax l a == a \/ exists v, In v l /\ fold_left Qmax l a == v.
Proof.
  revert a. induction l as [|h l IH]; intro a; simpl.
  - left; reflexivity.
  - destruct (IH (Qmax a h)) as [H | (v & Hin & Hv)].
    + destruct (Q.max_dec a h) as [E | E].
      * left; exact (Qeq_trans _ _ _ H E).
      * right; exists h; split;
          [left; reflexivity | exact (Qeq_trans _ _ _ H E)].
    + right; exists v; split; [right; exact Hin | exact Hv].
Qed.

Lemma fold_min_is_min (l : list Q) (a : Q) :
  is_min (fold_left Qmin l a) (a :: l).
Proof.
  destruct (fold_min_le l a) as [H1 H2]. split.
  - intros v [<- | Hin]; auto.
  - destruct (fold_min_attained l a) as [H | (v & Hin & Hv)].
    + exists a; split; [left; reflexivity | exact H].
    + exists v; split; [right; exact Hin | exact Hv].
Qed.

Lemma fold_max_is_max (l : list Q) (a : Q) :
  is_max (fold_left Qmax l a) (a :: l).
Proof.
  destruct (fold_max_ge l a) as [H1 H2]. split.
  - intros v [<- | Hin]; auto.
  - destruct (fold_max_attained l a) as [H | (v & Hin & Hv)].
    + exists a; split; [left; reflexivity | exact H].
    + exists v; split; [right; exact Hin | exact Hv].
Qed.

Lemma content_bbox_fields (ns : list (string * Node.t)) :
  let b := content_bbox ns in
  BoundingBox.minX b = fold_left Qmin (node_xs ns) 0 /\
  BoundingBox.minY b = fold_left Qmin (node_ys ns) 0 /\
  BoundingBox.maxX b = fold_left Qmax (node_rights ns) 0 /\
  BoundingBox.maxY b = fold_left Qmax (node_bottoms ns) 0.
Proof.
  exact (bbox_fold (map_values ns) (mkNodePass BoundingBox.new [] [])).
Qed.

(* ------------------------------------------------------------------ *)
(** ** The content box and the view box *)

(** C1, as stated, fails: with a single node at (50,50) of size 20x20
    the computed [minX] is 0, which is not the minimum of the node
    x-coordinates (50). *)
Lemma content_bbox_not_tight :
  ~ is_min (BoundingBox.minX (content_bbox snapshot_positive))
           (node_xs snapshot_positive).
Proof.
  intros [_ (v & Hin & Hv)].
  destruct Hin as [<- | []].
  vm_compute in Hv. discriminate Hv.
Qed.

(** C1, amended: the content box computed inside [renderMinimap] is the
    min/max over the node extents together with the origin: [minX] is
    the minimum of 0 and the node [x]s, [minY] of 0 and the node [y]s,
    [maxX] the maximum of 0 and the [x + width]s, [maxY] of 0 and the
    [y + height]s.  For an empty node set it is the zero box, which is
    not valid. *)
Theorem content_bbox_hull_with_origin (ns : list (string * Node.t)) :
  let b := content_bbox ns in
  is_min (BoundingBox.minX b) (0 :: node_xs ns) /\
  is_min (BoundingBox.minY b) (0 :: node_ys ns) /\
  is_max (BoundingBox.maxX b) (0 :: node_rights ns) /\
  is_max (BoundingBox.maxY b) (0 :: node_bottoms ns) /\
  content_bbox [] = BoundingBox.mk 0 0 0 0 /\
  BoundingBox.isValid (content_bbox []) = false.
Proof.
  destruct (content_bbox_fields ns) as (Hx & Hy & HX & HY).
  cbv zeta. rewrite Hx, Hy, HX, HY.
  repeat split;
    try apply fold_min_is_min; try apply fold_max_is_max.
Qed.

(** C9: the content box always contains the world origin, and with a
    positive margin the stored view box is valid, also for an empty
    node set. *)
Theorem content_bbox_contains_origin
    (s : Settings.t) (svg : SvgRoot) (canvas : Canvas) :
  let b := content_bbox (nodes canvas) in
  (BoundingBox.minX b <= 0 <= BoundingBox.maxX b /\
   BoundingBox.minY b <= 0 <= BoundingBox.maxY b) /\
  (0 < Settings.margin s ->
   BoundingBox.isValid (r_canvas_bounds (renderMinimap s svg canvas)) = true).
Proof.
  cbv zeta.
  destruct (content_bbox_fields (nodes canvas)) as (Hx & Hy & HX & HY).
  assert (Hb : (BoundingBox.minX (content_bbox (nodes canvas)) <= 0
                <= BoundingBox.maxX (content_bbox (nodes canvas))) /\
               (BoundingBox.minY (content_bbox (nodes canvas)) <= 0
                <= BoundingBox.maxY (content_bbox (nodes canvas)))).
  { rewrite Hx, Hy, HX, HY.
    pose proof (proj1 (fold_min_le (node_xs (nodes canvas)) 0)).
    pose proof (proj1 (fold_min_le (node_ys (nodes canvas)) 0)).
    pose proof (proj1 (fold_max_ge (node_rights (nodes canvas)) 0)).
    pose proof (proj1 (fold_max_ge (node_bottoms (nodes canvas)) 0)).
    tauto. }
  split; [exact Hb|].
  intro Hm. unfold renderMinimap.
  destruct (render_edges _ _) as [fg thrown]. cbn [r_canvas_bounds].
  unfold BoundingBox.isValid, padded_bounds.
  cbn [BoundingBox.minX BoundingBox.minY BoundingBox.maxX BoundingBox.maxY].
  apply andb_true_iff. rewrite !Qlt_bool_iff.
  fold (content_bbox (nodes canvas)). lra.
Qed.

Lemma content_bbox_contains_origin_witness :
  0 < Settings.margin (settings_margin 10) /\
  BoundingBox.isValid
    (r_canvas_bounds
       (renderMinimap (settings_margin 10) empty_svg (canvas_of []))) = true.
Proof.
  split; [reflexivity|].
  apply (content_bbox_contains_origin (settings_margin 10) empty_svg
           (canvas_of [])).
  reflexivity.
Defined.

Lemma renderMinimap_bounds (s : Settings.t) (svg : SvgRoot) (canvas : Canvas) :
  r_canvas_bounds (renderMinimap s svg canvas) =
    padded_bounds (Settings.margin s) (content_bbox (nodes canvas)) /\
  viewBox (r_svg (renderMinimap s svg canvas)) =
    Some (viewBox_of (r_canvas_bounds (renderMinimap s svg canvas))).
Proof.
  unfold renderMinimap.
  destruct (render_edges _ _) as [fg thrown]. split; reflexivity.
Qed.

(** C7: the stored view box ([canvas_bounds]) is the content box
    expanded by the margin on all four sides, whether or not the edge
    loop throws afterwards; [setupMinimap] stores it in the plugin; and
    for g1 = (0,0,200,200), n1 = (50,50,20,20) with margin 10 the SVG
    view box is (-10, -10, 220, 220). *)
Theorem canvas_bounds_padded
    (s : Settings.t) (svg : SvgRoot) (canvas : Canvas) (w : World) :
  let b := content_bbox (nodes canvas) in
  let m := Settings.margin s in
  let expanded :=
    BoundingBox.mk (BoundingBox.minX b - m) (BoundingBox.minY b - m)
                   (BoundingBox.maxX b + m) (BoundingBox.maxY b + m) in
  r_canvas_bounds (renderMinimap s svg canvas) = expanded /\
  viewBox (r_svg (renderMinimap s svg canvas)) =
    Some (BoundingBox.minX expanded, BoundingBox.minY expanded,
          BoundingBox.maxX expanded - BoundingBox.minX expanded,
          BoundingBox.maxY expanded - BoundingBox.minY expanded) /\
  (settings (plugin w) = s -> Settings.enabled s = true ->
   canvas_bounds (plugin (fst (setupMinimap (Some canvas) w))) = expanded) /\
  viewBox (r_svg (renderMinimap (settings_margin 10) empty_svg canvas_g1_n1))
    = Some (-10, -10, 220, 220).
Proof.
  cbv zeta.
  destruct (renderMinimap_bounds s svg canvas) as [Hb Hv].
  split; [exact Hb|]. split; [rewrite Hv, Hb; reflexivity|].
  split; [|reflexivity].
  intros Hs He. unfold setupMinimap.
  rewrite Hs, He. cbn [negb fst plugin canvas_bounds].
  match goal with
  | |- r_canvas_bounds (renderMinimap ?s' ?svg' canvas) = _ =>
      destruct (renderMinimap_bounds s' svg' canvas) as [Hb' _];
      rewrite Hb'
  end.
  unfold patchCanvas. cbn [plugin settings]. rewrite Hs. reflexivity.
Qed.

Lemma canvas_bounds_padded_witness :
  settings (plugin (initial (settings_margin 10))) = settings_margin 10 /\
  Settings.enabled (settings_margin 10) = true /\
  canvas_bounds
    (plugin (fst (setupMinimap (Some canvas_g1_n1)
                    (initial (settings_margin 10)))))
  = BoundingBox.mk (0 - 10) (0 - 10) (200 + 10) (200 + 10).
Proof.
  split; [reflexivity|]. split; [reflexivity|].
  destruct (canvas_bounds_padded (settings_margin 10) empty_svg canvas_g1_n1
              (initial (settings_margin 10))) as (_ & _ & H & _).
  rewrite (H eq_refl eq_refl). reflexivity.
Defined.

(* ------------------------------------------------------------------ *)
(** ** Containment *)

(** C10: [contains] is inclusive on all four boundaries, and a click on
    the border of the rendered extent goes on to hit-testing. *)
Theorem contains_inclusive
    (b : BoundingBox.t) (p : Vector2.t)
    (s : Settings.t) (active_canvas : option Canvas) (svg : SvgRoot)
    (getBBox : option SVGRect) (ctrl : bool) :
  (BoundingBox.contains b p = true <->
   BoundingBox.minX b <= Vector2.x p <= BoundingBox.maxX b /\
   BoundingBox.minY b <= Vector2.y p <= BoundingBox.maxY b) /\
  (on_border b p -> BoundingBox.contains b p = true) /\
  (on_border (BoundingBox.fromRect getBBox) p ->
   svg_click s active_canvas svg getBBox p ctrl
   = click_inside s active_canvas svg p ctrl).
Proof.
  split; [apply contains_iff|]. split.
  - intros [H _]. apply contains_iff. exact H.
  - intros [H _]. unfold svg_click.
    apply contains_iff in H. rewrite H. reflexivity.
Qed.

Lemma contains_inclusive_witness :
  on_border (BoundingBox.mk 0 0 10 10) (Vector2.mk 0 5) /\
  BoundingBox.contains (BoundingBox.mk 0 0 10 10) (Vector2.mk 0 5) = true /\
  svg_click DEFAULT_SETTINGS None empty_svg (Some (mkSVGRect 0 0 10 10))
    (Vector2.mk 0 5) false
  = click_inside DEFAULT_SETTINGS None empty_svg (Vector2.mk 0 5) false.
Proof.
  assert (Hb : on_border (BoundingBox.mk 0 0 10 10) (Vector2.mk 0 5)).
  { unfold on_border; cbn. repeat split; lra. }
  destruct (contains_inclusive (BoundingBox.mk 0 0 10 10) (Vector2.mk 0 5)
              DEFAULT_SETTINGS None empty_svg (Some (mkSVGRect 0 0 10 10))
              false) as (_ & H1 & H2).
  split; [exact Hb|]. split; [exact (H1 Hb)|].
  apply H2.
  unfold on_border; cbn. repeat split; lra.
Defined.

(* ------------------------------------------------------------------ *)
(** ** Side midpoints *)

(** C6: [sidePositionOf] returns the node's center moved by half the
    width (left: minus, right: plus) or half the height (top: minus,
    bottom: plus); any other side throws an error naming the side. *)
Theorem sidePositionOf_spec (node : Node.t) (side : string) :
  let cx := Node.x node + Node.width node / 2 in
  let cy := Node.y node + Node.height node / 2 in
  returns (sidePositionOf node "left")
          (Vector2.mk (cx - Node.width node / 2) cy) /\
  returns (sidePositionOf node "right")
          (Vector2.mk (cx + Node.width node / 2) cy) /\
  returns (sidePositionOf node "top")
          (Vector2.mk cx (cy - Node.height node / 2)) /\
  returns (sidePositionOf node "bottom")
          (Vector2.mk cx (cy + Node.height node / 2)) /\
  (side <> "left"%string -> side <> "right"%string ->
   side <> "top"%string -> side <> "bottom"%string ->
   sidePositionOf node side = Throw ("invalid side " ++ side)).
Proof.
  cbv zeta.
  repeat split;
    try (eexists; split; [reflexivity|]; split; cbn; lra).
  intros Hl Hr Ht Hb. unfold sidePositionOf.
  apply String.eqb_neq in Hl, Hr, Ht, Hb.
  rewrite Hl, Hr, Ht, Hb. reflexivity.
Qed.

Lemma sidePositionOf_spec_witness :
  sidePositionOf (plain_node "n" 0 0 10 10) "middle"
  = Throw "invalid side middle".
Proof.
  destruct (sidePositionOf_spec (plain_node "n" 0 0 10 10) "middle")
    as (_ & _ & _ & _ & H).
  apply H; discriminate.
Defined.

(* ------------------------------------------------------------------ *)
(** ** What the renderer draws *)

Lemma map_set_values {V : Type} (m : list (string * V)) (k : string)
    (v x : V) :
  In x (map_values (map_set m k v)) -> x = v \/ In x (map_values m).
Proof.
  unfold map_values.
  induction m as [|[k' v'] m IH]; cbn [map_set map In].
  - intros [<- | []]. left; reflexivity.
  - destruct (String.eqb k' k); cbn [map In snd].
    + intros [<- | H]; [left; reflexivity | right; right; exact H].
    + intros [<- | H]; [right; left; reflexivity|].
      destruct (IH H) as [-> | H']; [left; reflexivity | right; right; exact H'].
Qed.

(** Both maps built by the node loop only hold nodes of the canvas. *)
Lemma node_pass_values (P : Node.t -> Prop) (l : list Node.t) :
  forall acc,
    (forall n, In n l -> P n) ->
    (forall n, In n (map_values (groups acc)) -> P n) ->
    (forall n, In n (map_values (children acc)) -> P n) ->
    let acc' := fold_left node_step l acc in
    (forall n, In n (map_values (groups acc')) -> P n) /\
    (forall n, In n (map_values (children acc')) -> P n).
Proof.
  induction l as [|n l IH]; intros acc Hl Hg Hc; cbn [fold_left].
  - split; assumption.
  - apply IH.
    + intros n' Hn'. apply Hl. right; exact Hn'.
    + unfold node_step. destruct (Node.isGroup n); cbn [groups]; [|exact Hg].
      intros n' Hn'. apply map_set_values in Hn'.
      destruct Hn' as [-> | Hn']; [apply Hl; left; reflexivity | auto].
    + unfold node_step. destruct (Node.isGroup n); cbn [children]; [exact Hc|].
      intros n' Hn'. apply map_set_values in Hn'.
      destruct Hn' as [-> | Hn']; [apply Hl; left; reflexivity | auto].
Qed.

Lemma render_edges_rects (es : list Edge.t) :
  forall fg,
    flat_map selectAll_rect (fst (render_edges es fg))
    = flat_map selectAll_rect fg.
Proof.
  induction es as [|e es IH]; intro fg; cbn [render_edges]; [reflexivity|].
  destruct (render_edge e) as [p|msg] eqn:E; [|reflexivity].
  rewrite IH, flat_map_app. cbn [flat_map].
  unfold render_edge in E.
  destruct (sidePositionOf _ _); cbn [bind] in E; [|discriminate].
  destruct (sidePositionOf _ _); cbn [bind] in E; [|discriminate].
  injection E as <-. cbn [selectAll_rect]. rewrite !app_nil_r. reflexivity.
Qed.

Lemma render_group_rects (s : Settings.t) (n : Node.t) :
  selectAll_rect (render_group s n)
  = [node_rect n (Settings.groupColor s) (Some "darkblue"%string)].
Proof.
  unfold render_group.
  destruct (Node.label n) as [l|]; [destruct (String.eqb l "")|];
    reflexivity.
Qed.

(** Every node rectangle of a freshly rendered scene copies the id and
    the geometry of a node of the canvas. *)
Lemma node_rects_of_scene (s : Settings.t) (canvas : Canvas) (r : RectEl.t) :
  In r (node_rects (scene_of s canvas)) ->
  exists n, In n (map_values (nodes canvas)) /\
            RectEl.id r = Node.id n /\
            RectEl.x r = Node.x n /\ RectEl.y r = Node.y n /\
            RectEl.width r = Node.width n /\ RectEl.height r = Node.height n.
Proof.
  unfold node_rects, scene_of, renderMinimap.
  destruct (node_pass_values (fun n => In n (map_values (nodes canvas)))
              (map_values (nodes canvas)) (mkNodePass BoundingBox.new [] []))
    as [Hg Hc]; try (intros n []); [intros n H; exact H|].
  fold (node_pass (nodes canvas)) in Hg, Hc.
  pose proof (render_edges_rects (map_values (edges canvas))
                (map (render_group s) (map_values (groups (node_pass (nodes canvas))))
                 ++ map (render_child s)
                      (map_values (children (node_pass (nodes canvas))))))
    as Hrects.
  destruct (render_edges _ _) as [fg thrown]. cbn [fst] in Hrects.
  cbn [r_svg svg_children empty_svg app flat_map selectAll_rect].
  rewrite app_nil_r, Hrects, filter_app, flat_map_app.
  intro Hin. apply in_app_or in Hin.
  destruct Hin as [Hin | Hin].
  - destruct thrown; cbn in Hin; destruct Hin.
  - apply filter_In in Hin. destruct Hin as [Hin _].
    apply in_app_or in Hin. destruct Hin as [Hin | Hin];
      apply in_flat_map in Hin; destruct Hin as (el & Hel & Hr);
      apply in_map_iff in Hel; destruct Hel as (n & <- & Hn).
    + rewrite render_group_rects in Hr. destruct Hr as [<- | []].
      exists n. split; [apply Hg; exact Hn|]. repeat split.
    + cbn in Hr. destruct Hr as [<- | []].
      exists n. split; [apply Hc; exact Hn|]. repeat split.
Qed.

Lemma keyed_by_id_get (ns : list (string * Node.t)) (n : Node.t) :
  keyed_by_id ns -> In n (map_values ns) ->
  map_get ns (Node.id n) = Some n.
Proof.
  unfold keyed_by_id, map_values.
  induction ns as [|[k v] ns IH]; intros [Hk Hnd] Hin; [destruct Hin|].
  inversion Hk as [|? ? Hkv Hk']; subst. cbn [fst snd] in Hkv. subst k.
  inversion Hnd as [|? ? Hnotin Hnd']; subst.
  cbn [map_get]. cbn [map In snd] in Hin.
  destruct Hin as [-> | Hin]; [rewrite String.eqb_refl; reflexivity|].
  destruct (String.eqb (Node.id v) (Node.id n)) eqn:E.
  - exfalso. apply Hnotin. apply String.eqb_eq in E. cbn [map fst].
    apply in_map_iff in Hin. destruct Hin as ([k' v'] & Hv' & Hin').
    cbn [snd] in Hv'. subst v'.
    rewrite Forall_forall in Hk'. specialize (Hk' _ Hin'). cbn in Hk'.
    apply in_map_iff. exists (k', n). split; [cbn; congruence | exact Hin'].
  - apply IH; [split; assumption | exact Hin].
Qed.

(** On a freshly rendered scene every node rectangle names the node it
    was drawn from, and its top-left corner is the node's. *)
Lemma node_rect_names_node (s : Settings.t) (canvas : Canvas) (r : RectEl.t) :
  keyed_by_id (nodes canvas) ->
  In r (node_rects (scene_of s canvas)) ->
  exists n, map_get (nodes canvas) (RectEl.id r) = Some n /\
            RectEl.x r = Node.x n /\ RectEl.y r = Node.y n.
Proof.
  intros Hwf Hr.
  destruct (node_rects_of_scene s canvas r Hr)
    as (n & Hn & Hid & Hx & Hy & _).
  exists n. rewrite Hid. split; [|split; assumption].
  apply keyed_by_id_get; assumption.
Qed.

Lemma hit_rects_node_rects (svg : SvgRoot) (p : Vector2.t) (r : RectEl.t) :
  In r (hit_rects svg p) ->
  In r (node_rects svg) /\
  BoundingBox.contains (BoundingBox.fromRect (Some (RectEl.getBBox r))) p
  = true.
Proof.
  unfold hit_rects, node_rects. intro H. apply filter_In in H. exact H.
Qed.

(* ------------------------------------------------------------------ *)
(** ** Hit-testing and navigation *)

(** The loop returns one of the boxes it has seen, and none of them
    has a nearer corner. *)
Lemma nearest_loop_spec (p : Vector2.t) (ts : list (option Node.t)) :
  forall (b0 b : BoundingBox.t),
    nearest_loop p ts (corner_distSq p b0) b0 = Ok b ->
    (b = b0 \/ exists n, In (Some n) ts /\ b = Node.bbox n) /\
    corner_distSq p b <= corner_distSq p b0 /\
    (forall n, In (Some n) ts ->
               corner_distSq p b <= corner_distSq p (Node.bbox n)).
Proof.
  induction ts as [|t ts IH]; intros b0 b H; cbn [nearest_loop] in H.
  - injection H as <-. split; [left; reflexivity|].
    split; [lra | intros n []].
  - destruct t as [n|]; cbn [bbox_of_target bind] in H; [|discriminate].
    destruct (BoundingBox.Qlt_bool _ _) eqn:E.
    + apply Qlt_bool_iff in E.
      destruct (IH _ _ H) as (Hin & Hle & Hall).
      split; [|split].
      * right. destruct Hin as [-> | (n' & Hn' & ->)].
        -- exists n; split; [left; reflexivity | reflexivity].
        -- exists n'; split; [right; exact Hn' | reflexivity].
      * lra.
      * intros n' [Heq | Hn']; [injection Heq as <-; exact Hle | auto].
    + assert (Hge : corner_distSq p b0 <= corner_distSq p (Node.bbox n)).
      { apply Qnot_lt_le. intro Hlt. apply Qlt_bool_iff in Hlt. congruence. }
      destruct (IH _ _ H) as (Hin & Hle & Hall).
      split; [|split].
      * destruct Hin as [-> | (n' & Hn' & ->)]; [left; reflexivity|].
        right; exists n'; split; [right; exact Hn' | reflexivity].
      * exact Hle.
      * intros n' [Heq | Hn']; [injection Heq as <-; lra | auto].
Qed.

(** The loop does not throw when every target is a node. *)
Lemma nearest_loop_total (p : Vector2.t) (ts : list (option Node.t)) :
  (forall t, In t ts -> t <> None) ->
  forall d b0, exists b, nearest_loop p ts d b0 = Ok b.
Proof.
  induction ts as [|t ts IH]; intros Hall d b0; cbn [nearest_loop].
  - eexists; reflexivity.
  - destruct t as [n|]; [|exfalso; apply (Hall None); [left|]; reflexivity].
    cbn [bbox_of_target bind].
    assert (Hall' : forall t, In t ts -> t <> None)
      by (intros t Ht; apply Hall; right; exact Ht).
    destruct (BoundingBox.Qlt_bool _ _); apply IH; exact Hall'.
Qed.

Lemma resolve_target_inv (canvas : Canvas) (svg : SvgRoot) (p : Vector2.t)
    (b : BoundingBox.t) :
  resolve_target (Some canvas) svg p = Ok (Some b) ->
  exists first rest,
    map (fun r => map_get (nodes canvas) (RectEl.id r)) (hit_rects svg p)
      = Some first :: rest /\
    nearest_loop p (Some first :: rest)
      (corner_distSq p (Node.bbox first)) (Node.bbox first) = Ok b.
Proof.
  unfold resolve_target, target_nodes_of.
  destruct (hit_rects svg p) as [|r rs]; cbn [bind]; [discriminate|].
  cbn [map].
  destruct (map_get (nodes canvas) (RectEl.id r)) as [first|];
    cbn [bbox_of_target bind]; [|discriminate].
  intro H. exists first, (map (fun r => map_get (nodes canvas) (RectEl.id r)) rs).
  split; [reflexivity|].
  destruct (nearest_loop _ _ _ _) as [b'|]; cbn [bind] in H; [|discriminate].
  congruence.
Qed.

Lemma resolve_target_nearest (canvas : Canvas) (svg : SvgRoot)
    (p : Vector2.t) (b : BoundingBox.t) :
  resolve_target (Some canvas) svg p = Ok (Some b) ->
  exists r n,
    In r (hit_rects svg p) /\
    map_get (nodes canvas) (RectEl.id r) = Some n /\
    b = Node.bbox n /\
    forall r' n',
      In r' (hit_rects svg p) ->
      map_get (nodes canvas) (RectEl.id r') = Some n' ->
      corner_distSq p (Node.bbox n) <= corner_distSq p (Node.bbox n').
Proof.
  intro H.
  destruct (resolve_target_inv _ _ _ _ H) as (first & rest & Hmap & Hloop).
  destruct (nearest_loop_spec _ _ _ _ Hloop) as (Hin & _ & Hall).
  assert (Hsel : exists n, In (Some n) (Some first :: rest)
                           /\ b = Node.bbox n).
  { destruct Hin as [-> | Hin]; [|exact Hin].
    exists first; split; [left; reflexivity | reflexivity]. }
  destruct Hsel as (n & Hn & ->).
  rewrite <- Hmap in Hn, Hall.
  apply in_map_iff in Hn. destruct Hn as (r & Hr & Hrin).
  exists r, n. repeat split; try assumption.
  intros r' n' Hr' Hn'. apply Hall.
  apply in_map_iff. exists r'. split; assumption.
Qed.

Lemma resolve_target_total (canvas : Canvas) (svg : SvgRoot)
    (p : Vector2.t) :
  hit_rects svg p <> [] ->
  (forall r, In r (hit_rects svg p) ->
             map_get (nodes canvas) (RectEl.id r) <> None) ->
  exists b, resolve_target (Some canvas) svg p = Ok (Some b).
Proof.
  intros Hne Hall. unfold resolve_target, target_nodes_of.
  destruct (hit_rects svg p) as [|r rs] eqn:E; [congruence|].
  cbn [bind map].
  destruct (map_get (nodes canvas) (RectEl.id r)) as [first|] eqn:Er;
    [|exfalso; apply (Hall r); [left; reflexivity | exact Er]].
  cbn [bbox_of_target bind].
  destruct (nearest_loop_total p
              (Some first
               :: map (fun r => map_get (nodes canvas) (RectEl.id r)) rs))
    with (d := corner_distSq p (Node.bbox first)) (b0 := Node.bbox first)
    as [b Hb].
  - intros t [<- | Ht]; [discriminate|].
    apply in_map_iff in Ht. destruct Ht as (r' & <- & Hr').
    apply Hall. right; exact Hr'.
  - exists b. rewrite Hb. reflexivity.
Qed.

Lemma hit_rects_iff (svg : SvgRoot) (p : Vector2.t) (r : RectEl.t) :
  In r (hit_rects svg p) <-> is_hit svg p r.
Proof.
  unfold hit_rects, node_rects, is_hit, rect_contains, not_minimap_viewport.
  rewrite !filter_In, contains_iff, negb_true_iff, String.eqb_neq.
  cbn [BoundingBox.fromRect RectEl.getBBox rect_x rect_y rect_width
       rect_height BoundingBox.minX BoundingBox.minY BoundingBox.maxX
       BoundingBox.maxY].
  tauto.
Qed.

Lemma canvas_overlap_keyed : keyed_by_id (nodes canvas_overlap).
Proof.
  split.
  - repeat constructor.
  - repeat constructor; cbn; intros H;
      repeat (destruct H as [H | H]; [discriminate H|]); exact H.
Qed.

Lemma rect_b_is_hit :
  is_hit (scene_of DEFAULT_SETTINGS canvas_overlap) (Vector2.mk 50 50)
    (child_rect DEFAULT_SETTINGS (plain_node "b" 45 45 20 20)).
Proof.
  split; [right; right; left; reflexivity|].
  split; [discriminate|].
  unfold rect_contains. cbn. lra.
Qed.

Lemma world_stale_reachable : reachable DEFAULT_SETTINGS world_stale.
Proof.
  unfold world_stale.
  eapply reach_step; [|apply step_markMoved].
  eapply reach_step; [apply reach_initial | apply step_setup].
Qed.

(** C3, as stated, fails.  The minimap is set up on two nodes with
    corners (40,40) and (45,45); the host then moves the first node to
    (49,49), which does not redraw the minimap.  Both drawn rectangles
    still contain (50,50), and the click resolves to the moved node,
    whose drawn rectangle has the farther corner (squared distance 200
    against 50): the handler measures the distance to the node's
    current box, not to its rectangle. *)
Lemma stale_scene_picks_farther_corner :
  reachable DEFAULT_SETTINGS world_stale /\
  body world_stale
  = [mkElem "_minimap_" (scene_of DEFAULT_SETTINGS canvas_overlap)] /\
  resolve_target (Some canvas_moved)
    (scene_of DEFAULT_SETTINGS canvas_overlap) (Vector2.mk 50 50)
  = Ok (Some (Node.bbox (plain_node "a" 49 49 20 20))) /\
  ~ picks_nearest_rect_corner canvas_moved
      (scene_of DEFAULT_SETTINGS canvas_overlap) (Vector2.mk 50 50).
Proof.
  split; [exact world_stale_reachable|].
  split; [reflexivity|]. split; [reflexivity|].
  intro H.
  destruct (H (Node.bbox (plain_node "a" 49 49 20 20)) eq_refl)
    as (r & n & (Hin & Hid & _) & Hn & Hb & Hmin).
  change (In r [viewport_rect;
                child_rect DEFAULT_SETTINGS (plain_node "a" 40 40 20 20);
                child_rect DEFAULT_SETTINGS (plain_node "b" 45 45 20 20)])
    in Hin.
  destruct Hin as [<- | [<- | [<- | []]]].
  - apply Hid. reflexivity.
  - specialize (Hmin _ rect_b_is_hit). vm_compute in Hmin.
    apply Hmin. reflexivity.
  - cbn in Hn. injection Hn as <-. discriminate Hb.
Qed.

(** C3, amended: when rendered node rectangles (the viewport indicator
    excluded) contain the click point, the click resolves to the
    current box of the node named by one of them, and among the nodes
    named by the containing rectangles none has the top-left corner of
    its current box nearer to the click point (squared Euclidean
    distance); a target is resolved whenever a rectangle contains the
    point and every containing rectangle names a node of the canvas.
    On the scene rendered from the canvas as it is now, that corner is
    the rectangle's own top-left corner.  For nodes with corners
    (40,40) and (45,45) overlapping at (50,50), the (45,45) node is
    selected, also when a third node has a nearer corner but does not
    contain the point. *)
Theorem nearest_corner_selected
    (s : Settings.t) (canvas : Canvas) (svg : SvgRoot) (p : Vector2.t) :
  (forall b, resolve_target (Some canvas) svg p = Ok (Some b) ->
     exists r n,
       is_hit svg p r /\
       map_get (nodes canvas) (RectEl.id r) = Some n /\
       b = Node.bbox n /\
       forall r' n',
         is_hit svg p r' ->
         map_get (nodes canvas) (RectEl.id r') = Some n' ->
         corner_distSq p (Node.bbox n) <= corner_distSq p (Node.bbox n')) /\
  ((exists r, is_hit svg p r) ->
   (forall r, is_hit svg p r ->
              map_get (nodes canvas) (RectEl.id r) <> None) ->
   exists b, resolve_target (Some canvas) svg p = Ok (Some b)) /\
  (keyed_by_id (nodes canvas) ->
   (exists r, is_hit (scene_of s canvas) p r) ->
   exists r n,
     is_hit (scene_of s canvas) p r /\
     map_get (nodes canvas) (RectEl.id r) = Some n /\
     resolve_target (Some canvas) (scene_of s canvas) p
     = Ok (Some (Node.bbox n)) /\
     forall r', is_hit (scene_of s canvas) p r' ->
                rect_corner_distSq p r <= rect_corner_distSq p r') /\
  resolve_target (Some canvas_overlap)
    (scene_of DEFAULT_SETTINGS canvas_overlap) (Vector2.mk 50 50)
  = Ok (Some (Node.bbox (plain_node "b" 45 45 20 20))) /\
  resolve_target (Some canvas_three)
    (scene_of DEFAULT_SETTINGS canvas_three) (Vector2.mk 50 50)
  = Ok (Some (Node.bbox (plain_node "b" 45 45 20 20))).
Proof.
  assert (Hgen : forall svg0 b,
            resolve_target (Some canvas) svg0 p = Ok (Some b) ->
            exists r n,
              is_hit svg0 p r /\
              map_get (nodes canvas) (RectEl.id r) = Some n /\
              b = Node.bbox n /\
              forall r' n',
                is_hit svg0 p r' ->
                map_get (nodes canvas) (RectEl.id r') = Some n' ->
                corner_distSq p (Node.bbox n)
                <= corner_distSq p (Node.bbox n')).
  { intros svg0 b H.
    destruct (resolve_target_nearest _ _ _ _ H)
      as (r & n & Hr & Hn & Hb & Hmin).
    exists r, n. split; [apply hit_rects_iff; exact Hr|].
    split; [exact Hn|]. split; [exact Hb|].
    intros r' n' Hr' Hn'. apply (Hmin r' n'); [|exact Hn'].
    apply hit_rects_iff. exact Hr'. }
  assert (Htot : forall svg0,
            (exists r, is_hit svg0 p r) ->
            (forall r, is_hit svg0 p r ->
                       map_get (nodes canvas) (RectEl.id r) <> None) ->
            exists b, resolve_target (Some canvas) svg0 p = Ok (Some b)).
  { intros svg0 [r0 Hr0] Hall.
    apply resolve_target_total.
    - apply hit_rects_iff in Hr0. intro E. rewrite E in Hr0. destruct Hr0.
    - intros r Hr. apply Hall. apply hit_rects_iff. exact Hr. }
  split; [apply Hgen|]. split; [apply Htot|].
  split; [|split; reflexivity].
  intros Hwf Hex.
  assert (Hnamed : forall r, is_hit (scene_of s canvas) p r ->
            exists n, map_get (nodes canvas) (RectEl.id r) = Some n /\
                      RectEl.x r = Node.x n /\ RectEl.y r = Node.y n).
  { intros r Hr. apply (node_rect_names_node s); [exact Hwf|].
    apply (hit_rects_node_rects _ p). apply hit_rects_iff. exact Hr. }
  destruct (Htot (scene_of s canvas) Hex) as [b Hb].
  { intros r Hr. destruct (Hnamed r Hr) as (n & -> & _). discriminate. }
  destruct (Hgen _ _ Hb) as (r & n & Hr & Hn & -> & Hmin).
  exists r, n. repeat split; try assumption; try apply Hr.
  intros r' Hr'.
  destruct (Hnamed r Hr) as (n0 & Hn0 & Hx & Hy).
  destruct (Hnamed r' Hr') as (n' & Hn' & Hx' & Hy').
  assert (n0 = n) by congruence. subst n0.
  specialize (Hmin r' n' Hr' Hn').
  unfold rect_corner_distSq. rewrite Hx, Hy, Hx', Hy'. exact Hmin.
Qed.

Lemma nearest_corner_selected_witness :
  keyed_by_id (nodes canvas_overlap) /\
  (exists r, is_hit (scene_of DEFAULT_SETTINGS canvas_overlap)
               (Vector2.mk 50 50) r) /\
  (exists r n,
     is_hit (scene_of DEFAULT_SETTINGS canvas_overlap) (Vector2.mk 50 50) r /\
     map_get (nodes canvas_overlap) (RectEl.id r) = Some n /\
     resolve_target (Some canvas_overlap)
       (scene_of DEFAULT_SETTINGS canvas_overlap) (Vector2.mk 50 50)
     = Ok (Some (Node.bbox n))) /\
  (exists r n,
     is_hit (scene_of DEFAULT_SETTINGS canvas_overlap) (Vector2.mk 50 50) r /\
     map_get (nodes canvas_moved) (RectEl.id r) = Some n /\
     Node.bbox (plain_node "a" 49 49 20 20) = Node.bbox n).
Proof.
  assert (Hex : exists r, is_hit (scene_of DEFAULT_SETTINGS canvas_overlap)
                            (Vector2.mk 50 50) r)
    by (eexists; exact rect_b_is_hit).
  split; [exact canvas_overlap_keyed|]. split; [exact Hex|]. split.
  - destruct (nearest_corner_selected DEFAULT_SETTINGS canvas_overlap
                empty_svg (Vector2.mk 50 50)) as (_ & _ & H & _).
    destruct (H canvas_overlap_keyed Hex) as (r & n & Hr & Hn & Ht & _).
    exists r, n. repeat split; try assumption; apply Hr.
  - destruct (nearest_corner_selected DEFAULT_SETTINGS canvas_moved
                (scene_of DEFAULT_SETTINGS canvas_overlap)
                (Vector2.mk 50 50)) as (H & _).
    destruct (H (Node.bbox (plain_node "a" 49 49 20 20)) eq_refl)
      as (r & n & Hr & Hn & Hb & _).
    exists r, n. repeat split; try assumption; apply Hr.
Defined.

Lemma click_inside_target (s : Settings.t) (canvas : Canvas) (svg : SvgRoot)
    (p : Vector2.t) (ctrl : bool) (b : BoundingBox.t) :
  resolve_target (Some canvas) svg p = Ok (Some b) ->
  click_inside s (Some canvas) svg p ctrl
  = Ok (navigate (strategy_for s ctrl) (Some canvas) b).
Proof.
  intro H. unfold click_inside. rewrite H. reflexivity.
Qed.

Lemma click_inside_no_hit (s : Settings.t) (active_canvas : option Canvas)
    (svg : SvgRoot) (p : Vector2.t) (ctrl : bool) :
  hit_rects svg p = [] ->
  click_inside s active_canvas svg p ctrl = Ok [].
Proof.
  intro H. unfold click_inside, resolve_target, target_nodes_of.
  rewrite H. destruct active_canvas; reflexivity.
Qed.

(** C4: for a click that resolves to a target box, the strategy is the
    secondary one when the modifier is held and the primary one
    otherwise; PAN calls [panTo] with the center of the box, ZOOM calls
    [zoomToBbox] with the box, NONE calls nothing; a click that hits no
    rectangle calls nothing and does not throw, with or without an
    active canvas.  With primary ZOOM and secondary PAN, a plain click
    zooms and a modified click pans. *)
Theorem navigation_strategy_spec
    (s : Settings.t) (canvas : Canvas) (svg : SvgRoot)
    (getBBox : option SVGRect) (p : Vector2.t) (ctrl : bool)
    (b : BoundingBox.t) :
  (BoundingBox.contains (BoundingBox.fromRect getBBox) p = true ->
   resolve_target (Some canvas) svg p = Ok (Some b) ->
   match (if ctrl then Settings.secondaryNavigationStrategy s
          else Settings.primaryNavigationStrategy s) with
   | PAN =>
       exists cx cy,
         svg_click s (Some canvas) svg getBBox p ctrl = Ok [panTo cx cy] /\
         cx == (BoundingBox.minX b + BoundingBox.maxX b) / 2 /\
         cy == (BoundingBox.minY b + BoundingBox.maxY b) / 2
   | ZOOM => svg_click s (Some canvas) svg getBBox p ctrl = Ok [zoomToBbox b]
   | NONE => svg_click s (Some canvas) svg getBBox p ctrl = Ok []
   end) /\
  (forall active_canvas,
     hit_rects svg p = [] ->
     svg_click s active_canvas svg getBBox p ctrl = Ok []) /\
  (svg_click DEFAULT_SETTINGS (Some canvas_g1_n1)
     (scene_of DEFAULT_SETTINGS canvas_g1_n1)
     (Some (mkSVGRect 0 0 200 200)) (Vector2.mk 60 60) false
   = Ok [zoomToBbox (BoundingBox.mk 50 50 (50 + 20) (50 + 20))]) /\
  (svg_click DEFAULT_SETTINGS (Some canvas_g1_n1)
     (scene_of DEFAULT_SETTINGS canvas_g1_n1)
     (Some (mkSVGRect 0 0 200 200)) (Vector2.mk 60 60) true
   = Ok [panTo (50 + (50 + 20 - 50) / 2) (50 + (50 + 20 - 50) / 2)]).
Proof.
  split; [|split; [|split; reflexivity]].
  - intros Hin Ht. unfold svg_click. rewrite Hin. cbn [negb].
    rewrite (click_inside_target s canvas svg p ctrl b Ht).
    unfold strategy_for, navigate.
    destruct (if ctrl then _ else _).
    + eexists; eexists. split; [reflexivity|].
      split; field.
    + reflexivity.
    + reflexivity.
  - intros active_canvas Hno. unfold svg_click.
    destruct (negb _); [reflexivity|].
    apply click_inside_no_hit; exact Hno.
Qed.

Lemma navigation_strategy_spec_witness :
  (exists cx cy,
     svg_click (settings_margin 10) (Some canvas_overlap)
       (scene_of (settings_margin 10) canvas_overlap)
       (Some (mkSVGRect 40 40 25 25)) (Vector2.mk 50 50) true
     = Ok [panTo cx cy] /\
     cx == (45 + (45 + 20)) / 2 /\ cy == (45 + (45 + 20)) / 2) /\
  svg_click (settings_margin 10) None
    (scene_of (settings_margin 10) canvas_overlap)
    (Some (mkSVGRect 40 40 25 25)) (Vector2.mk 41 64) true
  = Ok [].
Proof.
  split.
  - destruct (navigation_strategy_spec (settings_margin 10) canvas_overlap
                (scene_of (settings_margin 10) canvas_overlap)
                (Some (mkSVGRect 40 40 25 25)) (Vector2.mk 50 50) true
                (Node.bbox (plain_node "b" 45 45 20 20))) as (H & _).
    exact (H eq_refl eq_refl).
  - destruct (navigation_strategy_spec (settings_margin 10) canvas_overlap
                (scene_of (settings_margin 10) canvas_overlap)
                (Some (mkSVGRect 40 40 25 25)) (Vector2.mk 41 64) true
                BoundingBox.new) as (_ & H & _).
    exact (H None eq_refl).
Defined.

(* ------------------------------------------------------------------ *)
(** ** Interception *)

Lemma dispatched_handlers (active : option Canvas) (hs : list Handler) :
  forall w,
    dispatched (fold_left (fun w h => run_handler active h w) hs w)
    = dispatched w.
Proof.
  induction hs as [|h hs IH]; intro w; cbn [fold_left]; [reflexivity|].
  rewrite IH. destruct h; reflexivity.
Qed.

Lemma dispatched_dispatch (active : option Canvas) (type : CanvasEventType)
    (w : World) :
  dispatched (dispatchCanvasEvent active type w) = dispatched w ++ [type].
Proof.
  unfold dispatchCanvasEvent. rewrite dispatched_handlers. reflexivity.
Qed.

Lemma dispatched_call (active : option Canvas) (m : Method) (w : World) :
  dispatched (call active m w) = dispatched w ++ events_of m.
Proof.
  induction m as [|type next IH]; cbn [call events_of].
  - rewrite app_nil_r. reflexivity.
  - rewrite dispatched_dispatch, IH, app_assoc. reflexivity.
Qed.

(** C2 fails on the code: [patchCanvas] sets [canvas_patched] but never
    reads it, so a second call wraps the four methods again and one
    invocation dispatches its event twice.  This already happens after
    [setupMinimap] followed by one [reloadMinimap]. *)
Theorem patch_twice_emits_twice
    (canvas : Canvas) (active : option Canvas) (w : World) :
  let w1 := patchCanvas (Some canvas) w in
  let w2 := patchCanvas (Some canvas) w1 in
  canvas_patched (plugin w1) = true /\
  dispatched (call active (markMoved (prototype w2)) w2)
  = dispatched w ++ events_of (markMoved (prototype w))
      ++ [CANVAS_MOVED; CANVAS_MOVED] /\
  dispatched (call active (markDirty (prototype w2)) w2)
  = dispatched w ++ events_of (markDirty (prototype w))
      ++ [CANVAS_DIRTY; CANVAS_DIRTY] /\
  dispatched (call active (markViewportChanged (prototype w2)) w2)
  = dispatched w ++ events_of (markViewportChanged (prototype w))
      ++ [CANVAS_VIEWPORT_CHANGED; CANVAS_VIEWPORT_CHANGED] /\
  dispatched (call active (requestFrame (prototype w2)) w2)
  = dispatched w ++ events_of (requestFrame (prototype w))
      ++ [CANVAS_TICK; CANVAS_TICK] /\
  (let w' := fst (reloadMinimap (Some canvas_g1_n1) world_loaded) in
   dispatched (call (Some canvas_g1_n1) (markMoved (prototype w')) w')
   = [CANVAS_MOVED; CANVAS_MOVED]).
Proof.
  cbv zeta. split; [reflexivity|].
  repeat split; try reflexivity;
    rewrite dispatched_call; cbn [patchCanvas prototype dispatched events_of
      markMoved markDirty markViewportChanged requestFrame];
    rewrite <- !app_assoc; reflexivity.
Qed.

(* ------------------------------------------------------------------ *)
(** ** Edge routing *)

(** C8 fails on the code: the endpoints come from [e.from.side] and
    [e.to.side], but the link generator is picked from [e.fromSide], a
    property live edges do not carry, so an edge leaving a left side is
    drawn with the vertical generator. *)
Theorem live_edge_drawn_vertical (n1 n2 : Node.t) :
  Edge.side (Edge.from (live_edge n1 n2)) = "left"%string /\
  render_edge (live_edge n1 n2)
  = Ok (path linkVertical
          (Vector2.mk (Node.x n1 + Node.width n1 / 2 - Node.width n1 / 2)
                      (Node.y n1 + Node.height n1 / 2 - 0))
          (Vector2.mk (Node.x n2 + Node.width n2 / 2 + Node.width n2 / 2)
                      (Node.y n2 + Node.height n2 / 2 + 0))).
Proof.
  split; reflexivity.
Qed.

(* ------------------------------------------------------------------ *)
(** ** Teardown *)

Lemma overlay_count_on_first (id : string) (f : Elem -> Elem)
    (l : list Elem) :
  (forall e, el_id (f e) = el_id e) ->
  overlay_count (on_first id f l) = overlay_count l.
Proof.
  intro Hf. unfold overlay_count.
  induction l as [|e l IH]; cbn [on_first]; [reflexivity|].
  destruct (String.eqb (el_id e) id); cbn [filter].
  - rewrite Hf.
    destruct (String.eqb (el_id e) "_minimap_"); reflexivity.
  - destruct (String.eqb (el_id e) "_minimap_"); cbn [List.length];
      rewrite IH; reflexivity.
Qed.

Lemma overlay_count_remove_first_le (id : string) (l : list Elem) :
  (overlay_count (remove_first id l) <= overlay_count l)%nat.
Proof.
  unfold overlay_count.
  induction l as [|e l IH]; cbn [remove_first]; [apply le_n|].
  destruct (String.eqb (el_id e) id); cbn [filter];
    destruct (String.eqb (el_id e) "_minimap_"); cbn [List.length]; lia.
Qed.

Lemma overlay_count_remove_overlay (l : list Elem) :
  (overlay_count l <= 1)%nat ->
  overlay_count (remove_first "_minimap_" l) = 0%nat.
Proof.
  unfold overlay_count.
  induction l as [|e l IH]; cbn [remove_first filter]; [reflexivity|].
  destruct (String.eqb (el_id e) "_minimap_") eqn:E; cbn [List.length].
  - intro H. lia.
  - intro H. cbn [filter]. rewrite E. apply IH. exact H.
Qed.

Lemma select_empty_count (l : list Elem) :
  select_empty "_minimap_" l = true <-> overlay_count l = 0%nat.
Proof.
  unfold select_empty, overlay_count.
  induction l as [|e l IH]; cbn [existsb filter]; [split; reflexivity|].
  destruct (String.eqb (el_id e) "_minimap_"); cbn [orb negb List.length].
  - split; discriminate.
  - exact IH.
Qed.

Lemma overlay_count_app (l1 l2 : list Elem) :
  overlay_count (l1 ++ l2) = (overlay_count l1 + overlay_count l2)%nat.
Proof.
  unfold overlay_count. rewrite filter_app, length_app. reflexivity.
Qed.

Lemma overlay_count_zero (l : list Elem) :
  overlay_count l = 0%nat ->
  forall e, In e l -> el_id e <> "_minimap_"%string.
Proof.
  unfold overlay_count. intros H e He Hid.
  assert (Hin : In e (filter (fun e => String.eqb (el_id e) "_minimap_") l)).
  { apply filter_In. split; [exact He|]. apply String.eqb_eq. exact Hid. }
  destruct (filter _ l); [destruct Hin | discriminate H].
Qed.

Lemma overlay_count_viewport (s : Settings.t) (canvas : option Canvas)
    (l : list Elem) :
  overlay_count (renderCanvasViewport s canvas l) = overlay_count l.
Proof.
  unfold renderCanvasViewport.
  destruct (negb _); [reflexivity|].
  destruct canvas; [|reflexivity].
  apply overlay_count_on_first. reflexivity.
Qed.

Lemma overlay_count_handlers (active : option Canvas) (hs : list Handler) :
  forall w,
    overlay_count (body (fold_left (fun w h => run_handler active h w) hs w))
    = overlay_count (body w).
Proof.
  induction hs as [|h hs IH]; intro w; cbn [fold_left]; [reflexivity|].
  rewrite IH. destruct h. cbn [run_handler body].
  apply overlay_count_viewport.
Qed.

Lemma overlay_count_call (active : option Canvas) (m : Method) (w : World) :
  overlay_count (body (call active m w)) = overlay_count (body w).
Proof.
  induction m as [|type next IH]; cbn [call]; [reflexivity|].
  unfold dispatchCanvasEvent. rewrite overlay_count_handlers. exact IH.
Qed.

Lemma overlay_count_unload (active : option Canvas) (w : World) :
  (overlay_count (body (unloadMinimap active w)) <= overlay_count (body w))%nat.
Proof.
  unfold unloadMinimap. destruct active; [|apply le_n]. cbn [body].
  pose proof (overlay_count_remove_first_le "_minimap_" (body w)).
  destruct (negb (select_empty "_minimap_" (body w)));
    match goal with
    | |- context [if ?c then _ else _] => destruct c
    end;
    try lia;
    match goal with
    | |- context [remove_first "_minimap_toolbar_" ?l] =>
        pose proof (overlay_count_remove_first_le "_minimap_toolbar_" l)
    end; lia.
Qed.

Lemma overlay_count_setup (active : option Canvas) (w : World) :
  (overlay_count (body w) <= 1)%nat ->
  (overlay_count (body (fst (setupMinimap active w))) <= 1)%nat.
Proof.
  intro H. unfold setupMinimap.
  destruct (negb _); [exact H|].
  destruct active as [c|]; [|exact H].
  cbn [fst body]. rewrite overlay_count_on_first by reflexivity.
  assert (Hb : body (patchCanvas (Some c) w) = body w) by reflexivity.
  rewrite Hb.
  destruct (select_empty "_minimap_" (body w)) eqn:E; [|exact H].
  apply select_empty_count in E.
  rewrite overlay_count_app, E. cbn. lia.
Qed.

(** The document never holds two overlays. *)
Lemma reachable_overlay_unique (s : Settings.t) (w : World) :
  reachable s w -> (overlay_count (body w) <= 1)%nat.
Proof.
  induction 1 as [|w w' _ IH Hstep]; [cbn; lia|].
  destruct Hstep; cbn [body];
    try (rewrite overlay_count_call; exact IH);
    try exact IH.
  - apply overlay_count_setup; exact IH.
  - pose proof (overlay_count_unload active w). lia.
  - apply overlay_count_setup.
    pose proof (overlay_count_unload active w). lia.
Qed.

Lemma world_loaded_reachable : reachable DEFAULT_SETTINGS world_loaded.
Proof.
  eapply reach_step; [apply reach_initial | apply step_setup].
Qed.

(** C5, as stated, fails: when no canvas view is active,
    [unloadMinimap] returns at once; the overlay element and the
    [CANVAS_TICK] subscription made by an earlier [setupMinimap] are
    still there. *)
Lemma unload_without_canvas_keeps_overlay :
  reachable DEFAULT_SETTINGS world_loaded /\
  ~ torn_down (unloadMinimap None world_loaded).
Proof.
  split; [exact world_loaded_reachable|].
  intros [_ H]. apply (H onCanvasUpdate).
  vm_compute. left; reflexivity.
Qed.

(** C5, amended: after a call to [unloadMinimap] made while a canvas
    view is active, no element with id [_minimap_] remains in the
    document and nothing is subscribed to [CANVAS_TICK]; when no
    canvas view is active, [unloadMinimap] changes nothing. *)
Theorem unload_with_canvas_tears_down
    (s : Settings.t) (w : World) (active_canvas : Canvas) :
  (reachable s w ->
   torn_down (unloadMinimap (Some active_canvas) w)) /\
  unloadMinimap None w = w.
Proof.
  split; [|reflexivity].
  intro Hr. pose proof (reachable_overlay_unique s w Hr) as Hc.
  unfold torn_down, unloadMinimap. cbn [body plugin canvas_event]. split.
  - apply overlay_count_zero.
    assert (H1 : overlay_count
                   (if negb (select_empty "_minimap_" (body w))
                    then remove_first "_minimap_" (body w)
                    else body w) = 0%nat).
    { destruct (select_empty "_minimap_" (body w)) eqn:E; cbn [negb].
      - apply select_empty_count; exact E.
      - apply overlay_count_remove_overlay; exact Hc. }
    match goal with
    | |- overlay_count (if ?c then remove_first ?i ?l else _) = _ =>
        pose proof (overlay_count_remove_first_le i l); destruct c
    end; lia.
  - intros h Hin. unfold Events.off in Hin.
    apply filter_In in Hin. destruct Hin as [_ Hf].
    destruct h. discriminate Hf.
Qed.

Lemma unload_with_canvas_tears_down_witness :
  reachable DEFAULT_SETTINGS world_loaded /\
  torn_down (unloadMinimap (Some canvas_g1_n1) world_loaded) /\
  unloadMinimap None world_loaded = world_loaded.
Proof.
  split; [exact world_loaded_reachable|].
  destruct (unload_with_canvas_tears_down DEFAULT_SETTINGS world_loaded
              canvas_g1_n1) as [H1 H2].
  split; [|exact H2].
  apply H1.
  eapply reach_step; [apply reach_initial | apply step_setup].
Defined.

(* ------------------------------------------------------------------ *)
(** ** Further properties of the geometry helpers *)

(** [clamp] keeps a value inside a well-ordered range and leaves a
    value of the range alone; on an inverted range it returns [max]. *)
Theorem clamp_spec (x lo hi : Q) :
  (lo <= hi -> lo <= clamp x lo hi <= hi) /\
  (lo <= x <= hi -> clamp x lo hi == x) /\
  (hi < lo -> clamp x lo hi == hi).
Proof.
  unfold clamp.
  destruct (Q.max_spec x lo) as [[H1 E1] | [H1 E1]];
    destruct (Q.min_spec (Qmax x lo) hi) as [[H2 E2] | [H2 E2]];
    rewrite E2; rewrite E1 in *; repeat split; intros; try lra.
Qed.

Lemma clamp_spec_witness :
  (0 <= 10 /\ 0 <= clamp 15 0 10 <= 10) /\
  (0 <= 5 <= 10 /\ clamp 5 0 10 == 5) /\
  (0 < 10 /\ clamp 5 10 0 == 0).
Proof.
  split; [|split].
  - split; [lra|].
    exact (proj1 (clamp_spec 15 0 10) ltac:(lra)).
  - split; [lra|].
    exact (proj1 (proj2 (clamp_spec 5 0 10)) ltac:(lra)).
  - split; [lra|].
    exact (proj2 (proj2 (clamp_spec 5 10 0)) ltac:(lra)).
Defined.

(** When the [<svg>] element reports no bounding box, [fromRect] falls
    back to the zero box, which holds the origin only: a click anywhere
    else is dropped without a call. *)
Theorem click_without_extent
    (s : Settings.t) (active_canvas : option Canvas) (svg : SvgRoot)
    (p : Vector2.t) (ctrl : bool) :
  ~ (Vector2.x p == 0 /\ Vector2.y p == 0) ->
  svg_click s active_canvas svg None p ctrl = Ok [].
Proof.
  intro Hp. unfold svg_click.
  destruct (BoundingBox.contains (BoundingBox.fromRect None) p) eqn:E;
    [|reflexivity].
  exfalso. apply Hp. apply contains_iff in E. cbn in E. lra.
Qed.

Lemma click_without_extent_witness :
  svg_click DEFAULT_SETTINGS (Some canvas_overlap)
    (scene_of DEFAULT_SETTINGS canvas_overlap) None (Vector2.mk 50 50) false
  = Ok [].
Proof.
  apply (click_without_extent DEFAULT_SETTINGS (Some canvas_overlap)
           (scene_of DEFAULT_SETTINGS canvas_overlap) (Vector2.mk 50 50)
           false).
  cbn. intros [H _]. discriminate H.
Defined.

(** With a margin that is not negative, the stored view box holds every
    point of every node of the canvas. *)
Theorem nodes_inside_canvas_bounds
    (s : Settings.t) (svg : SvgRoot) (canvas : Canvas)
    (n : Node.t) (p : Vector2.t) :
  In n (map_values (nodes canvas)) ->
  0 <= Settings.margin s ->
  BoundingBox.contains (Node.bbox n) p = true ->
  BoundingBox.contains (r_canvas_bounds (renderMinimap s svg canvas)) p = true.
Proof.
  intros Hn Hm Hp.
  destruct (renderMinimap_bounds s svg canvas) as [-> _].
  destruct (content_bbox_fields (nodes canvas)) as (Hx & Hy & HX & HY).
  apply contains_iff in Hp. apply contains_iff.
  unfold Node.bbox in Hp.
  unfold padded_bounds. cbn [BoundingBox.minX BoundingBox.minY
                             BoundingBox.maxX BoundingBox.maxY] in *.
  rewrite Hx, Hy, HX, HY.
  pose proof (proj2 (fold_min_le (node_xs (nodes canvas)) 0) (Node.x n)
                (in_map _ _ _ Hn)).
  pose proof (proj2 (fold_min_le (node_ys (nodes canvas)) 0) (Node.y n)
                (in_map _ _ _ Hn)).
  pose proof (proj2 (fold_max_ge (node_rights (nodes canvas)) 0) _
                (in_map (fun n => Node.x n + Node.width n) _ _ Hn)).
  pose proof (proj2 (fold_max_ge (node_bottoms (nodes canvas)) 0) _
                (in_map (fun n => Node.y n + Node.height n) _ _ Hn)).
  cbv beta in *. lra.
Qed.

Lemma nodes_inside_canvas_bounds_witness :
  BoundingBox.contains
    (r_canvas_bounds (renderMinimap (settings_margin 0) empty_svg canvas_g1_n1))
    (Vector2.mk 70 70) = true.
Proof.
  apply (nodes_inside_canvas_bounds (settings_margin 0) empty_svg canvas_g1_n1
           (plain_node "n1" 50 50 20 20) (Vector2.mk 70 70)).
  - right; left; reflexivity.
  - cbn. lra.
  - reflexivity.
Defined.

(** The point [sidePositionOf] returns lies on the border of the
    node's box, for a node whose width and height are not negative. *)
Theorem side_position_on_border (node : Node.t) (side : string)
    (v : Vector2.t) :
  0 <= Node.width node -> 0 <= Node.height node ->
  sidePositionOf node side = Ok v ->
  on_border (Node.bbox node) v.
Proof.
  intros Hw Hh. unfold sidePositionOf.
  assert (Ew : Node.width node == 2 * (Node.width node / 2)) by field.
  assert (Eh : Node.height node == 2 * (Node.height node / 2)) by field.
  set (hw := Node.width node / 2) in *.
  set (hh := Node.height node / 2) in *.
  destruct (String.eqb side "left");
    [|destruct (String.eqb side "right");
      [|destruct (String.eqb side "top");
        [|destruct (String.eqb side "bottom"); [|discriminate]]]];
    intro H; injection H as <-;
    unfold on_border, Node.bbox, Vector2.add, Vector2.sub;
    cbn [Vector2.x Vector2.y BoundingBox.minX BoundingBox.minY
         BoundingBox.maxX BoundingBox.maxY];
    lra.
Qed.

Lemma side_position_on_border_witness :
  on_border (Node.bbox (plain_node "n" 0 0 10 20)) (Vector2.mk (0 + 10 / 2 + 10 / 2) (0 + 20 / 2 + 0)).
Proof.
  apply (side_position_on_border (plain_node "n" 0 0 10 20) "right");
    [cbn; lra | cbn; lra | reflexivity].
Defined.

(* ------------------------------------------------------------------ *)
(** ** Further properties of [renderMinimap] *)

Lemma map_set_fresh {V : Type} (m : list (string * V)) (k : string) (v : V) :
  ~ In k (map fst m) -> map_set m k v = m ++ [(k, v)].
Proof.
  induction m as [|[k' v'] m IH]; cbn [map_set map fst app In];
    intro H; [reflexivity|].
  destruct (String.eqb k' k) eqn:E.
  - exfalso. apply H. left. apply String.eqb_eq. exact E.
  - rewrite IH; [reflexivity|]. intro Hin. apply H. right. exact Hin.
Qed.

(** With pairwise distinct node ids the loop splits the nodes into the
    groups and the rest, each in canvas order. *)
Lemma node_pass_partition (l : list Node.t) :
  forall acc,
    NoDup (map Node.id l) ->
    (forall n, In n l -> ~ In (Node.id n) (map fst (groups acc))) ->
    (forall n, In n l -> ~ In (Node.id n) (map fst (children acc))) ->
    groups (fold_left node_step l acc)
    = groups acc ++ map (fun n => (Node.id n, n)) (filter Node.isGroup l) /\
    children (fold_left node_step l acc)
    = children acc
      ++ map (fun n => (Node.id n, n))
           (filter (fun n => negb (Node.isGroup n)) l).
Proof.
  induction l as [|n l IH]; intros acc Hnd Hg Hc; cbn [fold_left filter map].
  - rewrite !app_nil_r. split; reflexivity.
  - cbn [map] in Hnd. inversion Hnd as [|? ? Hnotin Hnd']; subst.
    assert (Hfresh : forall n', In n' l -> Node.id n' <> Node.id n).
    { intros n' Hn' Heq. apply Hnotin. rewrite <- Heq.
      apply in_map. exact Hn'. }
    unfold node_step at 2 4.
    destruct (Node.isGroup n) eqn:E; cbn [negb].
    + destruct (IH (mkNodePass
                  (BoundingBox.mk
                     (Qmin (BoundingBox.minX (bbox acc)) (Node.x n))
                     (Qmin (BoundingBox.minY (bbox acc)) (Node.y n))
                     (Qmax (BoundingBox.maxX (bbox acc))
                           (Node.x n + Node.width n))
                     (Qmax (BoundingBox.maxY (bbox acc))
                           (Node.y n + Node.height n)))
                  (map_set (groups acc) (Node.id n) n) (children acc)))
        as [H1 H2]; cbn [groups children]; try assumption.
      * intros n' Hn'.
        rewrite map_set_fresh by (apply Hg; left; reflexivity).
        rewrite map_app, in_app_iff. cbn [map fst In].
        intros [Hin | [Heq | []]].
        -- apply (Hg n'); [right; exact Hn' | exact Hin].
        -- apply (Hfresh n' Hn'). symmetry. exact Heq.
      * intros n' Hn'. apply Hc. right; exact Hn'.
      * cbn [groups children] in H1, H2. rewrite H1, H2.
        rewrite map_set_fresh by (apply Hg; left; reflexivity).
        cbn [map]. rewrite <- app_assoc. split; reflexivity.
    + destruct (IH (mkNodePass
                  (BoundingBox.mk
                     (Qmin (BoundingBox.minX (bbox acc)) (Node.x n))
                     (Qmin (BoundingBox.minY (bbox acc)) (Node.y n))
                     (Qmax (BoundingBox.maxX (bbox acc))
                           (Node.x n + Node.width n))
                     (Qmax (BoundingBox.maxY (bbox acc))
                           (Node.y n + Node.height n)))
                  (groups acc) (map_set (children acc) (Node.id n) n)))
        as [H1 H2]; cbn [groups children]; try assumption.
      * intros n' Hn'. apply Hg. right; exact Hn'.
      * intros n' Hn'.
        rewrite map_set_fresh by (apply Hc; left; reflexivity).
        rewrite map_app, in_app_iff. cbn [map fst In].
        intros [Hin | [Heq | []]].
        -- apply (Hc n'); [right; exact Hn' | exact Hin].
        -- apply (Hfresh n' Hn'). symmetry. exact Heq.
      * cbn [groups children] in H1, H2. rewrite H1, H2.
        rewrite map_set_fresh by (apply Hc; left; reflexivity).
        cbn [map]. rewrite <- app_assoc. split; reflexivity.
Qed.

Lemma keyed_by_id_ids (ns : list (string * Node.t)) :
  keyed_by_id ns -> NoDup (map Node.id (map_values ns)).
Proof.
  intros [Hk Hnd]. unfold map_values. rewrite map_map.
  assert (E : map (fun kv => Node.id (snd kv)) ns = map fst ns).
  { apply map_ext_in. intros kv Hkv.
    rewrite Forall_forall in Hk. symmetry. apply Hk. exact Hkv. }
  rewrite E. exact Hnd.
Qed.

Lemma node_pass_split (ns : list (string * Node.t)) :
  keyed_by_id ns ->
  map_values (groups (node_pass ns))
  = filter Node.isGroup (map_values ns) /\
  map_values (children (node_pass ns))
  = filter (fun n => negb (Node.isGroup n)) (map_values ns).
Proof.
  intro Hk. unfold node_pass.
  destruct (node_pass_partition (map_values ns)
              (mkNodePass BoundingBox.new [] []))
    as [H1 H2]; try (intros n _ []).
  - apply keyed_by_id_ids. exact Hk.
  - rewrite H1, H2. cbn [groups children app].
    assert (E : forall l : list Node.t,
               map_values (map (fun n => (Node.id n, n)) l) = l).
    { intro l. unfold map_values. rewrite map_map. cbn [snd].
      apply map_id. }
    rewrite !E. split; reflexivity.
Qed.

Lemma group_layer_rects (s : Settings.t) (l : list Node.t) :
  flat_map selectAll_rect (map (render_group s) l) = map (group_rect s) l.
Proof.
  induction l as [|n l IH]; cbn [map flat_map]; [reflexivity|].
  rewrite IH, render_group_rects. reflexivity.
Qed.

Lemma child_layer_rects (s : Settings.t) (l : list Node.t) :
  flat_map selectAll_rect (map (render_child s) l) = map (child_rect s) l.
Proof.
  induction l as [|n l IH]; cbn [map flat_map]; [reflexivity|].
  rewrite IH. reflexivity.
Qed.

Lemma filter_all {A : Type} (f : A -> bool) (l : list A) :
  (forall a, In a l -> f a = true) -> filter f l = l.
Proof.
  induction l as [|a l IH]; intro H; cbn [filter]; [reflexivity|].
  rewrite (H a (or_introl eq_refl)), IH; [reflexivity|].
  intros a' Ha'. apply H. right; exact Ha'.
Qed.

(** The node rectangles of a freshly rendered scene, in document
    order, for any pair of maps the node loop may have built. *)
Lemma node_rects_of_fresh_scene (s : Settings.t) (canvas : Canvas) :
  node_rects (scene_of s canvas)
  = filter not_minimap_viewport
      (map (group_rect s) (map_values (groups (node_pass (nodes canvas))))
       ++ map (child_rect s)
            (map_values (children (node_pass (nodes canvas))))).
Proof.
  unfold node_rects, scene_of, renderMinimap.
  pose proof (render_edges_rects (map_values (edges canvas))
                (map (render_group s)
                   (map_values (groups (node_pass (nodes canvas))))
                 ++ map (render_child s)
                      (map_values (children (node_pass (nodes canvas))))))
    as Hrects.
  destruct (render_edges _ _) as [fg thrown]. cbn [fst] in Hrects.
  cbn [r_svg svg_children empty_svg app flat_map selectAll_rect].
  rewrite app_nil_r, Hrects, filter_app, flat_map_app.
  rewrite group_layer_rects, child_layer_rects.
  destruct thrown; reflexivity.
Qed.

(** One rectangle per node: on a canvas whose node map is keyed by id
    and where no node uses the indicator's id, the node rectangles of
    a fresh scene are the groups in canvas order followed by the other
    nodes in canvas order. *)
Theorem scene_rects_in_order (s : Settings.t) (canvas : Canvas) :
  keyed_by_id (nodes canvas) ->
  no_viewport_id (nodes canvas) ->
  node_rects (scene_of s canvas)
  = map (group_rect s) (filter Node.isGroup (map_values (nodes canvas)))
    ++ map (child_rect s)
         (filter (fun n => negb (Node.isGroup n))
            (map_values (nodes canvas))).
Proof.
  intros Hk Hv. rewrite node_rects_of_fresh_scene.
  destruct (node_pass_split (nodes canvas) Hk) as [-> ->].
  apply filter_all. intros r Hr.
  unfold not_minimap_viewport. apply negb_true_iff. apply String.eqb_neq.
  apply in_app_or in Hr.
  destruct Hr as [Hr | Hr]; apply in_map_iff in Hr;
    destruct Hr as (n & <- & Hn); apply filter_In in Hn;
    apply Hv; apply Hn.
Qed.

Lemma canvas_g1_n1_keyed :
  keyed_by_id (nodes canvas_g1_n1) /\ no_viewport_id (nodes canvas_g1_n1).
Proof.
  split; [split|].
  - repeat constructor.
  - repeat constructor; cbn; intros H;
      repeat (destruct H as [H | H]; [discriminate H|]); exact H.
  - intros n Hn. cbn in Hn.
    destruct Hn as [<- | [<- | []]]; discriminate.
Qed.

Lemma scene_rects_in_order_witness :
  node_rects (scene_of DEFAULT_SETTINGS canvas_g1_n1)
  = [group_rect DEFAULT_SETTINGS (group_node "g1" 0 0 200 200);
     child_rect DEFAULT_SETTINGS (plain_node "n1" 50 50 20 20)].
Proof.
  rewrite (scene_rects_in_order DEFAULT_SETTINGS canvas_g1_n1
             (proj1 canvas_g1_n1_keyed) (proj2 canvas_g1_n1_keyed)).
  reflexivity.
Defined.

(** [renderMinimap] does not clear the [<svg>] it draws into: the node
    rectangles of the result are the ones already there followed by
    the ones of a fresh scene, so drawing twice into one element
    leaves every rectangle twice. *)
Theorem render_appends (s : Settings.t) (svg : SvgRoot) (canvas : Canvas) :
  node_rects (r_svg (renderMinimap s svg canvas))
  = node_rects svg ++ node_rects (scene_of s canvas) /\
  node_rects (r_svg (renderMinimap s (scene_of s canvas) canvas))
  = node_rects (scene_of s canvas) ++ node_rects (scene_of s canvas).
Proof.
  assert (H : forall svg0,
             node_rects (r_svg (renderMinimap s svg0 canvas))
             = node_rects svg0 ++ node_rects (scene_of s canvas)).
  { intro svg0. unfold node_rects, scene_of, renderMinimap.
    destruct (render_edges _ _) as [fg thrown].
    cbn [r_svg svg_children empty_svg app].
    rewrite flat_map_app, filter_app. reflexivity. }
  split; apply H.
Qed.

Lemma sidePositionOf_valid (node : Node.t) (side : string) :
  valid_side side = true -> exists v, sidePositionOf node side = Ok v.
Proof.
  unfold valid_side, sidePositionOf. intro H.
  destruct (String.eqb side "left"); [eexists; reflexivity|].
  destruct (String.eqb side "right"); [eexists; reflexivity|].
  destruct (String.eqb side "top"); [eexists; reflexivity|].
  destruct (String.eqb side "bottom"); [eexists; reflexivity|].
  discriminate H.
Qed.

Lemma sidePositionOf_invalid (node : Node.t) (side : string) :
  valid_side side = false ->
  sidePositionOf node side = Throw ("invalid side " ++ side).
Proof.
  unfold valid_side, sidePositionOf. intro H.
  destruct (String.eqb side "left"); [discriminate H|].
  destruct (String.eqb side "right"); [discriminate H|].
  destruct (String.eqb side "top"); [discriminate H|].
  destruct (String.eqb side "bottom"); [discriminate H|].
  reflexivity.
Qed.

Lemma render_edge_valid (e : Edge.t) :
  edge_valid e = true -> exists p, render_edge e = Ok p.
Proof.
  unfold edge_valid, render_edge. intro H.
  apply andb_true_iff in H. destruct H as [Hf Ht].
  destruct (sidePositionOf_valid (Edge.node (Edge.from e)) _ Hf) as [a ->].
  destruct (sidePositionOf_valid (Edge.node (Edge.to e)) _ Ht) as [b ->].
  eexists; reflexivity.
Qed.

Lemma render_edge_invalid (e : Edge.t) :
  edge_valid e = false ->
  render_edge e = Throw ("invalid side " ++ Edge.side (Edge.from e)) \/
  render_edge e = Throw ("invalid side " ++ Edge.side (Edge.to e)).
Proof.
  unfold edge_valid, render_edge. intro H.
  destruct (valid_side (Edge.side (Edge.from e))) eqn:Ef.
  - destruct (sidePositionOf_valid (Edge.node (Edge.from e)) _ Ef) as [a ->].
    cbn [andb] in H.
    rewrite (sidePositionOf_invalid (Edge.node (Edge.to e)) _ H).
    right; reflexivity.
  - rewrite (sidePositionOf_invalid (Edge.node (Edge.from e)) _ Ef).
    left; reflexivity.
Qed.

(** [sidePositionOf] runs on the source end first: the error names the
    source side when that one is unknown, and the target side only
    when the source side is known. *)
Lemma render_edge_invalid_msg (e : Edge.t) :
  edge_valid e = false ->
  (valid_side (Edge.side (Edge.from e)) = false /\
   render_edge e = Throw ("invalid side " ++ Edge.side (Edge.from e))) \/
  (valid_side (Edge.side (Edge.from e)) = true /\
   valid_side (Edge.side (Edge.to e)) = false /\
   render_edge e = Throw ("invalid side " ++ Edge.side (Edge.to e))).
Proof.
  unfold edge_valid, render_edge. intro H.
  destruct (valid_side (Edge.side (Edge.from e))) eqn:Ef.
  - destruct (sidePositionOf_valid (Edge.node (Edge.from e)) _ Ef) as [a ->].
    cbn [andb] in H.
    rewrite (sidePositionOf_invalid (Edge.node (Edge.to e)) _ H).
    right. repeat split. exact H.
  - rewrite (sidePositionOf_invalid (Edge.node (Edge.from e)) _ Ef).
    left. split; reflexivity.
Qed.

Lemma render_edge_ok_valid (e : Edge.t) (p : Svg) :
  render_edge e = Ok p -> edge_valid e = true.
Proof.
  intro H. destruct (edge_valid e) eqn:E; [reflexivity|].
  destruct (render_edge_invalid e E) as [H' | H']; congruence.
Qed.

(** The edge loop draws the edges up to the first one it cannot
    place. *)
Lemma render_edges_spec (es : list Edge.t) :
  forall fg,
    exists es1 paths,
      drawn_as es1 paths /\
      fst (render_edges es fg) = fg ++ paths /\
      ((snd (render_edges es fg) = None /\ es = es1) \/
       (exists e es2 msg,
          snd (render_edges es fg) = Some msg /\
          es = es1 ++ e :: es2 /\ render_edge e = Throw msg)).
Proof.
  induction es as [|e es IH]; intro fg; cbn [render_edges].
  - exists [], []. split; [constructor|].
    split; [cbn; rewrite app_nil_r; reflexivity|].
    left; split; reflexivity.
  - destruct (render_edge e) as [p|msg] eqn:E.
    + destruct (IH (fg ++ [p])) as (es1 & paths & Hd & Hfst & Hsnd).
      exists (e :: es1), (p :: paths).
      split; [constructor; assumption|].
      split; [rewrite Hfst, <- app_assoc; reflexivity|].
      destruct Hsnd as [[Hn ->] | (e' & es2 & msg & Hs & -> & Ht)].
      * left; split; [exact Hn | reflexivity].
      * right. exists e', es2, msg. repeat split; assumption.
    + exists [], []. split; [constructor|].
      split; [cbn; rewrite app_nil_r; reflexivity|].
      right. exists e, es, msg. repeat split. exact E.
Qed.

Lemma drawn_as_valid (es : list Edge.t) (paths : list Svg) :
  drawn_as es paths -> forallb edge_valid es = true.
Proof.
  induction 1 as [|e p es paths He _ IH]; [reflexivity|].
  cbn [forallb]. rewrite (render_edge_ok_valid e p He), IH. reflexivity.
Qed.

(** [renderMinimap] throws exactly when some end of some edge names a
    side other than left, right, top and bottom. *)
Theorem render_throws_iff (s : Settings.t) (svg : SvgRoot) (canvas : Canvas) :
  r_thrown (renderMinimap s svg canvas) = None <->
  forallb edge_valid (map_values (edges canvas)) = true.
Proof.
  unfold renderMinimap.
  destruct (render_edges_spec (map_values (edges canvas))
              (map (render_group s)
                 (map_values (groups (node_pass (nodes canvas))))
               ++ map (render_child s)
                    (map_values (children (node_pass (nodes canvas))))))
    as (es1 & paths & Hd & _ & Hsnd).
  destruct (render_edges _ _) as [fg thrown]. cbn [snd] in Hsnd.
  cbn [r_thrown]. split.
  - intros ->.
    destruct Hsnd as [[_ ->] | (e & es2 & msg & Hs & _)];
      [|discriminate Hs].
    apply (drawn_as_valid _ _ Hd).
  - intro Hall.
    destruct Hsnd as [[Hn _] | (e & es2 & msg & _ & He & Ht)];
      [exact Hn|].
    exfalso. rewrite He, forallb_app in Hall.
    apply andb_true_iff in Hall. destruct Hall as [_ Hall].
    cbn [forallb] in Hall. apply andb_true_iff in Hall.
    destruct Hall as [Hv _].
    destruct (render_edge_valid e Hv) as [p Hp]. congruence.
Qed.

Lemma render_complete
    (s : Settings.t) (svg : SvgRoot) (canvas : Canvas) :
  r_thrown (renderMinimap s svg canvas) = None ->
  exists paths,
    drawn_as (map_values (edges canvas)) paths /\
    svg_children (r_svg (renderMinimap s svg canvas))
    = svg_children svg
      ++ [g (Some "minimap_bg"%string) [rect viewport_rect];
          g (Some "minimap_fg"%string) (node_layer s canvas ++ paths)].
Proof.
  unfold renderMinimap, node_layer.
  destruct (render_edges_spec (map_values (edges canvas))
              (map (render_group s)
                 (map_values (groups (node_pass (nodes canvas))))
               ++ map (render_child s)
                    (map_values (children (node_pass (nodes canvas))))))
    as (es1 & paths & Hd & Hfst & Hsnd).
  destruct (render_edges _ _) as [fg thrown]. cbn [fst snd] in Hfst, Hsnd.
  cbn [r_thrown r_svg svg_children]. intros ->.
  destruct Hsnd as [[_ ->] | (e & es2 & msg & Hs & _)]; [|discriminate Hs].
  exists paths. split; [exact Hd|]. rewrite Hfst. reflexivity.
Qed.

(** When nothing is thrown, the render adds the indicator layer holding
    the viewport rectangle and the node layer followed by one path per
    edge, in canvas order. *)
Theorem render_complete_scene
    (s : Settings.t) (svg : SvgRoot) (canvas : Canvas) :
  r_thrown (renderMinimap s svg canvas) = None ->
  exists paths,
    drawn_as (map_values (edges canvas)) paths /\
    svg_children (r_svg (renderMinimap s svg canvas))
    = svg_children svg
      ++ [g (Some "minimap_bg"%string) [rect viewport_rect];
          g (Some "minimap_fg"%string) (node_layer s canvas ++ paths)].
Proof.
  intro H. destruct (render_complete s svg canvas H) as (paths & Hd & Hc).
  exists paths. split; assumption.
Qed.

Lemma render_complete_scene_witness :
  exists paths,
    drawn_as (map_values (edges (canvas_with_edge (edge_between "right" "left"))))
      paths /\
    svg_children
      (r_svg (renderMinimap DEFAULT_SETTINGS empty_svg
                (canvas_with_edge (edge_between "right" "left"))))
    = svg_children empty_svg
      ++ [g (Some "minimap_bg"%string) [rect viewport_rect];
          g (Some "minimap_fg"%string)
            (node_layer DEFAULT_SETTINGS
               (canvas_with_edge (edge_between "right" "left")) ++ paths)].
Proof.
  apply (render_complete_scene DEFAULT_SETTINGS empty_svg
           (canvas_with_edge (edge_between "right" "left"))).
  reflexivity.
Defined.

(** When an edge names an unknown side, the render stops at that
    edge: the error message is "invalid side " followed by the unknown
    side (the source side if that one is unknown, else the target
    side), the stored view box and the node layer are in place, the
    edges before the bad one are drawn, later ones are not, and the
    viewport rectangle is never created. *)
Theorem render_aborted_scene
    (s : Settings.t) (svg : SvgRoot) (canvas : Canvas) (msg : string) :
  r_thrown (renderMinimap s svg canvas) = Some msg ->
  exists es1 e es2 paths,
    map_values (edges canvas) = es1 ++ e :: es2 /\
    drawn_as es1 paths /\
    ((valid_side (Edge.side (Edge.from e)) = false /\
      msg = ("invalid side " ++ Edge.side (Edge.from e))%string) \/
     (valid_side (Edge.side (Edge.from e)) = true /\
      valid_side (Edge.side (Edge.to e)) = false /\
      msg = ("invalid side " ++ Edge.side (Edge.to e))%string)) /\
    r_canvas_bounds (renderMinimap s svg canvas)
    = padded_bounds (Settings.margin s) (content_bbox (nodes canvas)) /\
    svg_children (r_svg (renderMinimap s svg canvas))
    = svg_children svg
      ++ [g (Some "minimap_bg"%string) [];
          g (Some "minimap_fg"%string) (node_layer s canvas ++ paths)].
Proof.
  pose proof (proj1 (renderMinimap_bounds s svg canvas)) as Hb.
  revert Hb. unfold renderMinimap, node_layer.
  destruct (render_edges_spec (map_values (edges canvas))
              (map (render_group s)
                 (map_values (groups (node_pass (nodes canvas))))
               ++ map (render_child s)
                    (map_values (children (node_pass (nodes canvas))))))
    as (es1 & paths & Hd & Hfst & Hsnd).
  destruct (render_edges _ _) as [fg thrown]. cbn [fst snd] in Hfst, Hsnd.
  cbn [r_thrown r_svg svg_children r_canvas_bounds]. intros Hb ->.
  destruct Hsnd as [[Hn _] | (e & es2 & msg' & Hs & He & Ht)];
    [discriminate Hn|].
  injection Hs as <-.
  exists es1, e, es2, paths. split; [exact He|]. split; [exact Hd|].
  assert (Hinv : edge_valid e = false).
  { destruct (edge_valid e) eqn:E; [|reflexivity].
    destruct (render_edge_valid e E) as [p Hp]. congruence. }
  split.
  { destruct (render_edge_invalid_msg e Hinv) as [[Hf H] | (Hf & Hto & H)];
      rewrite H in Ht; injection Ht as <-.
    - left. split; [exact Hf | reflexivity].
    - right. split; [exact Hf|]. split; [exact Hto | reflexivity]. }
  split; [exact Hb|]. rewrite Hfst. reflexivity.
Qed.

Lemma render_aborted_scene_witness :
  exists es1 e es2 paths,
    map_values (edges (canvas_with_edge (edge_between "right" "centre")))
    = es1 ++ e :: es2 /\
    drawn_as es1 paths /\
    ((valid_side (Edge.side (Edge.from e)) = false /\
      "invalid side centre"%string
      = ("invalid side " ++ Edge.side (Edge.from e))%string) \/
     (valid_side (Edge.side (Edge.from e)) = true /\
      valid_side (Edge.side (Edge.to e)) = false /\
      "invalid side centre"%string
      = ("invalid side " ++ Edge.side (Edge.to e))%string)).
Proof.
  destruct (render_aborted_scene DEFAULT_SETTINGS empty_svg
              (canvas_with_edge (edge_between "right" "centre"))
              "invalid side centre" eq_refl)
    as (es1 & e & es2 & paths & H1 & H2 & H3 & _).
  exists es1, e, es2, paths. repeat split; assumption.
Defined.

(* ------------------------------------------------------------------ *)
(** ** Further properties of the click handler *)

Lemma nearest_loop_keep (p : Vector2.t) (ts : list (option Node.t))
    (b0 : BoundingBox.t) :
  (forall t, In t ts ->
     exists n, t = Some n /\
               corner_distSq p b0 <= corner_distSq p (Node.bbox n)) ->
  nearest_loop p ts (corner_distSq p b0) b0 = Ok b0.
Proof.
  induction ts as [|t ts IH]; intro H; cbn [nearest_loop]; [reflexivity|].
  destruct (H t (or_introl eq_refl)) as (n & -> & Hle).
  cbn [bbox_of_target bind].
  destruct (BoundingBox.Qlt_bool _ _) eqn:E.
  - apply Qlt_bool_iff in E. lra.
  - apply IH. intros t' Ht'. apply H. right; exact Ht'.
Qed.

(** Ties go to the rectangle drawn first: the first hit rectangle in
    document order is the target unless a later one is strictly
    nearer. *)
Theorem first_hit_kept
    (canvas : Canvas) (svg : SvgRoot) (p : Vector2.t)
    (r : RectEl.t) (rs : list RectEl.t) (n : Node.t) :
  hit_rects svg p = r :: rs ->
  map_get (nodes canvas) (RectEl.id r) = Some n ->
  (forall r', In r' rs ->
     exists n', map_get (nodes canvas) (RectEl.id r') = Some n' /\
                corner_distSq p (Node.bbox n)
                <= corner_distSq p (Node.bbox n')) ->
  resolve_target (Some canvas) svg p = Ok (Some (Node.bbox n)).
Proof.
  intros Hh Hn Hrest. unfold resolve_target, target_nodes_of.
  rewrite Hh. cbn [bind map]. rewrite Hn. cbn [bbox_of_target bind].
  rewrite nearest_loop_keep; [reflexivity|].
  intros t [<- | Ht].
  - exists n. split; [reflexivity | lra].
  - apply in_map_iff in Ht. destruct Ht as (r' & <- & Hr').
    destruct (Hrest r' Hr') as (n' & -> & Hle).
    exists n'. split; [reflexivity | exact Hle].
Qed.

Lemma first_hit_kept_witness :
  resolve_target
    (Some (canvas_of [plain_node "a" 40 40 20 20; plain_node "b" 40 40 30 30]))
    (scene_of DEFAULT_SETTINGS
       (canvas_of [plain_node "a" 40 40 20 20; plain_node "b" 40 40 30 30]))
    (Vector2.mk 50 50)
  = Ok (Some (Node.bbox (plain_node "a" 40 40 20 20))).
Proof.
  apply (first_hit_kept
           (canvas_of [plain_node "a" 40 40 20 20; plain_node "b" 40 40 30 30])
           _ (Vector2.mk 50 50)
           (child_rect DEFAULT_SETTINGS (plain_node "a" 40 40 20 20))
           [child_rect DEFAULT_SETTINGS (plain_node "b" 40 40 30 30)]).
  - reflexivity.
  - reflexivity.
  - intros r' [<- | []]. exists (plain_node "b" 40 40 30 30).
    split; [reflexivity|]. vm_compute. intro H. discriminate H.
Defined.

Lemma nearest_loop_undefined (p : Vector2.t) (ts : list (option Node.t)) :
  In None ts ->
  forall d b0, exists msg, nearest_loop p ts d b0 = Throw msg.
Proof.
  induction ts as [|t ts IH]; intros Hin d b0; [destruct Hin|].
  cbn [nearest_loop].
  destruct t as [n|]; cbn [bbox_of_target bind]; [|eexists; reflexivity].
  destruct Hin as [Heq | Hin]; [discriminate Heq|].
  destruct (BoundingBox.Qlt_bool _ _); apply IH; exact Hin.
Qed.

(** A stale scene makes the handler throw: when a hit rectangle names a
    node that is no longer in [canvas.nodes], reading its [bbox] is a
    [TypeError] and no call reaches the canvas, whatever the other hit
    rectangles are. *)
Theorem click_on_stale_rect_throws
    (s : Settings.t) (canvas : Canvas) (svg : SvgRoot)
    (getBBox : option SVGRect) (p : Vector2.t) (ctrl : bool)
    (r : RectEl.t) :
  BoundingBox.contains (BoundingBox.fromRect getBBox) p = true ->
  In r (hit_rects svg p) ->
  map_get (nodes canvas) (RectEl.id r) = None ->
  exists msg, svg_click s (Some canvas) svg getBBox p ctrl = Throw msg.
Proof.
  intros Hin Hr Hnone.
  unfold svg_click, click_inside, resolve_target, target_nodes_of.
  rewrite Hin. cbn [negb].
  destruct (hit_rects svg p) as [|r0 rs] eqn:E; [destruct Hr|].
  cbn [bind map].
  destruct (map_get (nodes canvas) (RectEl.id r0)) as [first|] eqn:E0;
    cbn [bbox_of_target bind]; [|eexists; reflexivity].
  destruct (nearest_loop_undefined p
              (Some first
               :: map (fun n => map_get (nodes canvas) (RectEl.id n)) rs))
    with (d := corner_distSq p (Node.bbox first)) (b0 := Node.bbox first)
    as [msg Hmsg].
  - right. destruct Hr as [-> | Hr]; [congruence|].
    apply in_map_iff. exists r. split; assumption.
  - exists msg. rewrite Hmsg. reflexivity.
Qed.

Lemma click_on_stale_rect_throws_witness :
  exists msg,
    svg_click DEFAULT_SETTINGS (Some (canvas_of [plain_node "b" 45 45 20 20]))
      (scene_of DEFAULT_SETTINGS canvas_overlap)
      (Some (mkSVGRect 40 40 25 25)) (Vector2.mk 50 50) false
    = Throw msg.
Proof.
  apply (click_on_stale_rect_throws DEFAULT_SETTINGS
           (canvas_of [plain_node "b" 45 45 20 20])
           (scene_of DEFAULT_SETTINGS canvas_overlap)
           (Some (mkSVGRect 40 40 25 25)) (Vector2.mk 50 50) false
           (child_rect DEFAULT_SETTINGS (plain_node "a" 40 40 20 20))).
  - reflexivity.
  - left; reflexivity.
  - reflexivity.
Defined.

(** A click that hits a rectangle while no canvas view is active
    throws: the node lookup dereferences the missing canvas. *)
Theorem click_without_canvas_throws
    (s : Settings.t) (svg : SvgRoot) (getBBox : option SVGRect)
    (p : Vector2.t) (ctrl : bool) :
  BoundingBox.contains (BoundingBox.fromRect getBBox) p = true ->
  hit_rects svg p <> [] ->
  exists msg, svg_click s None svg getBBox p ctrl = Throw msg.
Proof.
  intros Hin Hne.
  unfold svg_click, click_inside, resolve_target, target_nodes_of.
  rewrite Hin. cbn [negb].
  destruct (hit_rects svg p); [congruence|].
  eexists; reflexivity.
Qed.

Lemma click_without_canvas_throws_witness :
  exists msg,
    svg_click DEFAULT_SETTINGS None
      (scene_of DEFAULT_SETTINGS canvas_overlap)
      (Some (mkSVGRect 40 40 25 25)) (Vector2.mk 50 50) false
    = Throw msg.
Proof.
  apply (click_without_canvas_throws DEFAULT_SETTINGS
           (scene_of DEFAULT_SETTINGS canvas_overlap)
           (Some (mkSVGRect 40 40 25 25)) (Vector2.mk 50 50) false).
  - reflexivity.
  - discriminate.
Defined.

(** On the scene rendered from the active canvas (node map keyed by
    id) the handler never throws and makes at most one call. *)
Theorem click_on_fresh_scene
    (s s' : Settings.t) (canvas : Canvas) (getBBox : option SVGRect)
    (p : Vector2.t) (ctrl : bool) :
  keyed_by_id (nodes canvas) ->
  exists calls,
    svg_click s (Some canvas) (scene_of s' canvas) getBBox p ctrl = Ok calls /\
    (List.length calls <= 1)%nat.
Proof.
  intro Hk. unfold svg_click.
  destruct (negb _); [exists []; split; [reflexivity | apply le_0_n]|].
  destruct (hit_rects (scene_of s' canvas) p) as [|r rs] eqn:E.
  - exists []. split; [|apply le_0_n].
    apply click_inside_no_hit. exact E.
  - destruct (resolve_target_total canvas (scene_of s' canvas) p) as [b Hb].
    + rewrite E; discriminate.
    + intros r' Hr'.
      destruct (node_rect_names_node s' canvas r' Hk) as (n & -> & _);
        [|discriminate].
      apply (hit_rects_node_rects _ p). exact Hr'.
    + rewrite (click_inside_target s canvas _ p ctrl b Hb).
      eexists. split; [reflexivity|].
      unfold navigate. destruct (strategy_for s ctrl); cbn; lia.
Qed.

Lemma click_on_fresh_scene_witness :
  exists calls,
    svg_click DEFAULT_SETTINGS (Some canvas_g1_n1)
      (scene_of DEFAULT_SETTINGS canvas_g1_n1)
      (Some (mkSVGRect 0 0 200 200)) (Vector2.mk 60 60) false = Ok calls /\
    (List.length calls <= 1)%nat.
Proof.
  apply (click_on_fresh_scene DEFAULT_SETTINGS DEFAULT_SETTINGS canvas_g1_n1
           (Some (mkSVGRect 0 0 200 200)) (Vector2.mk 60 60) false).
  exact (proj1 canvas_g1_n1_keyed).
Defined.

(* ------------------------------------------------------------------ *)
(** ** Viewport tracking *)

Lemma on_viewport_g (f : RectEl.t -> RectEl.t) (i : option string)
    (cs : list Svg) (done : bool) :
  on_viewport f (g i cs) done
  = (g i (fst (on_viewport_list f cs done)),
     snd (on_viewport_list f cs done)).
Proof.
  cbn [on_viewport].
  match goal with
  | |- (let '(cs', d) := ?F cs done in _) = _ =>
      assert (E : forall l d0, F l d0 = on_viewport_list f l d0)
  end.
  { induction l as [|c rest IH]; intro d0; [reflexivity|].
    cbn [on_viewport_list]. destruct (on_viewport f c d0) as [c' d1].
    rewrite IH. reflexivity. }
  rewrite E. destruct (on_viewport_list f cs done); reflexivity.
Qed.

(** Once the indicator is found the walk changes nothing. *)
Lemma on_viewport_done (f : RectEl.t -> RectEl.t) (s : Svg) :
  on_viewport f s true = (s, true).
Proof.
  induction s as [r | c x y | l a b | i cs IH] using Svg_induction;
    try reflexivity.
  rewrite on_viewport_g.
  assert (E : on_viewport_list f cs true = (cs, true)).
  { induction IH as [|c rest Hc _ IHrest]; [reflexivity|].
    cbn [on_viewport_list]. rewrite Hc, IHrest. reflexivity. }
  rewrite E. reflexivity.
Qed.

Lemma on_viewport_list_done (f : RectEl.t -> RectEl.t) (l : list Svg) :
  on_viewport_list f l true = (l, true).
Proof.
  induction l as [|c rest IH]; [reflexivity|].
  cbn [on_viewport_list]. rewrite on_viewport_done, IH. reflexivity.
Qed.

(** The walk only ever touches a rectangle carrying the indicator's
    id. *)
Lemma on_viewport_node_rects (f : RectEl.t -> RectEl.t) (s : Svg) :
  (forall r, RectEl.id (f r) = RectEl.id r) ->
  forall done,
    filter not_minimap_viewport (selectAll_rect (fst (on_viewport f s done)))
    = filter not_minimap_viewport (selectAll_rect s).
Proof.
  intro Hf.
  induction s as [r | c x y | l a b | i cs IH] using Svg_induction;
    intro done; try reflexivity.
  - cbn [on_viewport]. destruct done; [reflexivity|].
    destruct (String.eqb (RectEl.id r) "minimap_viewport") eqn:E;
      [|reflexivity].
    cbn [fst selectAll_rect filter]. unfold not_minimap_viewport.
    rewrite Hf, E. reflexivity.
  - rewrite on_viewport_g. cbn [fst selectAll_rect].
    revert done.
    induction IH as [|c rest Hc _ IHrest]; intro done; [reflexivity|].
    cbn [on_viewport_list].
    specialize (Hc done). destruct (on_viewport f c done) as [c' d1].
    specialize (IHrest d1).
    destruct (on_viewport_list f rest d1) as [rest' d2].
    cbn [fst flat_map] in *.
    rewrite !filter_app, Hc, IHrest. reflexivity.
Qed.

Lemma on_viewport_svg_spec (f : RectEl.t -> RectEl.t) (svg : SvgRoot) :
  on_viewport_svg f svg
  = mkSvgRoot (viewBox svg)
      (fst (on_viewport_list f (svg_children svg) false)).
Proof.
  unfold on_viewport_svg. rewrite on_viewport_g. reflexivity.
Qed.

Lemma on_viewport_svg_hit_view (f : RectEl.t -> RectEl.t) (e : Elem) :
  (forall r, RectEl.id (f r) = RectEl.id r) ->
  hit_view (mkElem (el_id e) (on_viewport_svg f (el_svg e))) = hit_view e.
Proof.
  intro Hf. unfold hit_view. cbn [el_id el_svg].
  rewrite on_viewport_svg_spec. cbn [viewBox].
  f_equal. unfold node_rects. cbn [svg_children].
  pose proof (on_viewport_node_rects f (g None (svg_children (el_svg e)))
                Hf false) as H.
  rewrite on_viewport_g in H. cbn [fst selectAll_rect] in H. exact H.
Qed.

Lemma on_first_hit_view (id : string) (f : Elem -> Elem) (l : list Elem) :
  (forall e, hit_view (f e) = hit_view e) ->
  map hit_view (on_first id f l) = map hit_view l.
Proof.
  intro Hf. induction l as [|e l IH]; [reflexivity|].
  cbn [on_first]. destruct (String.eqb (el_id e) id); cbn [map].
  - rewrite Hf. reflexivity.
  - rewrite IH. reflexivity.
Qed.

Lemma renderCanvasViewport_hit_view (s : Settings.t) (canvas : option Canvas)
    (l : list Elem) :
  map hit_view (renderCanvasViewport s canvas l) = map hit_view l.
Proof.
  unfold renderCanvasViewport.
  destruct (negb _); [reflexivity|].
  destruct canvas as [c|]; [|reflexivity].
  apply on_first_hit_view. intro e.
  apply on_viewport_svg_hit_view. reflexivity.
Qed.

Lemma handlers_keep (active : option Canvas) (hs : list Handler) :
  forall w,
    let w' := fold_left (fun w h => run_handler active h w) hs w in
    map hit_view (body w') = map hit_view (body w) /\
    plugin w' = plugin w /\ prototype w' = prototype w.
Proof.
  induction hs as [|h hs IH]; intro w; cbn [fold_left].
  - repeat split.
  - destruct (IH (run_handler active h w)) as (H1 & H2 & H3).
    cbv zeta. rewrite H1, H2, H3. destruct h. cbn [run_handler body plugin
      prototype]. rewrite renderCanvasViewport_hit_view. repeat split.
Qed.

Lemma call_keeps (active : option Canvas) (m : Method) (w : World) :
  map hit_view (body (call active m w)) = map hit_view (body w) /\
  plugin (call active m w) = plugin w /\
  prototype (call active m w) = prototype w.
Proof.
  induction m as [|type next IH]; cbn [call]; [repeat split|].
  destruct IH as (H1 & H2 & H3).
  unfold dispatchCanvasEvent.
  match goal with
  | |- context [fold_left ?F ?hs ?w0] =>
      destruct (handlers_keep active hs w0) as (K1 & K2 & K3)
  end.
  cbv zeta in K1, K2, K3. rewrite K1, K2, K3.
  cbn [body plugin prototype]. repeat split; assumption.
Qed.

(** Viewport tracking never re-renders.  Whatever method of the canvas
    is called and however it is wrapped, the plugin state, the patched
    prototype, and the id, view box and node rectangles of every body
    element stay as they are: only the indicator rectangle can
    change, so hit-testing is not affected. *)
Theorem call_keeps_scene (active : option Canvas) (m : Method) (w : World) :
  map hit_view (body (call active m w)) = map hit_view (body w) /\
  plugin (call active m w) = plugin w /\
  prototype (call active m w) = prototype w.
Proof.
  destruct (call_keeps active m w) as (H1 & H2 & H3).
  split; [exact H1|]. split; [exact H2 | exact H3].
Qed.

(** After a complete render, one tick moves the indicator onto the
    canvas viewport: the indicator's box is the box
    [getViewportBBox()] returns, and the rest of the overlay is
    untouched. *)
Theorem indicator_tracks_viewport
    (s : Settings.t) (canvas viewed : Canvas) (rest : list Elem) :
  Settings.drawActiveViewport s = true ->
  r_thrown (renderMinimap s empty_svg canvas) = None ->
  exists r fg,
    svg_children (scene_of s canvas)
    = [g (Some "minimap_bg"%string) [rect viewport_rect];
       g (Some "minimap_fg"%string) fg] /\
    renderCanvasViewport s (Some viewed)
      (mkElem "_minimap_" (scene_of s canvas) :: rest)
    = mkElem "_minimap_"
        (mkSvgRoot (viewBox (scene_of s canvas))
           [g (Some "minimap_bg"%string) [rect r];
            g (Some "minimap_fg"%string) fg]) :: rest /\
    let b := BoundingBox.fromRect (Some (RectEl.getBBox r)) in
    let v := getViewportBBox viewed in
    BoundingBox.minX b == BoundingBox.minX v /\
    BoundingBox.minY b == BoundingBox.minY v /\
    BoundingBox.maxX b == BoundingBox.maxX v /\
    BoundingBox.maxY b == BoundingBox.maxY v.
Proof.
  intros Hd Ht.
  destruct (render_complete s empty_svg canvas Ht) as (paths & _ & Hc).
  cbn [svg_children empty_svg app] in Hc.
  exists (placed (getViewportBBox viewed) viewport_rect),
         (node_layer s canvas ++ paths).
  split; [exact Hc|]. split.
  - unfold renderCanvasViewport. rewrite Hd. cbn [negb on_first].
    cbn [el_id]. rewrite String.eqb_refl. cbn [el_id el_svg].
    rewrite on_viewport_svg_spec. unfold scene_of at 2. rewrite Hc.
    cbn [on_viewport_list]. rewrite !on_viewport_g.
    cbn [on_viewport_list on_viewport RectEl.id viewport_rect].
    cbn [String.eqb Ascii.eqb Bool.eqb fst snd].
    rewrite on_viewport_list_done. reflexivity.
  - cbn. repeat split; try reflexivity; ring.
Qed.

Lemma indicator_tracks_viewport_witness :
  exists r fg,
    svg_children (scene_of DEFAULT_SETTINGS canvas_g1_n1)
    = [g (Some "minimap_bg"%string) [rect viewport_rect];
       g (Some "minimap_fg"%string) fg] /\
    renderCanvasViewport DEFAULT_SETTINGS (Some canvas_g1_n1)
      (mkElem "_minimap_" (scene_of DEFAULT_SETTINGS canvas_g1_n1) :: [])
    = mkElem "_minimap_"
        (mkSvgRoot (viewBox (scene_of DEFAULT_SETTINGS canvas_g1_n1))
           [g (Some "minimap_bg"%string) [rect r];
            g (Some "minimap_fg"%string) fg]) :: [].
Proof.
  destruct (indicator_tracks_viewport DEFAULT_SETTINGS canvas_g1_n1
              canvas_g1_n1 [] eq_refl eq_refl) as (r & fg & H1 & H2 & _).
  exists r, fg. split; assumption.
Defined.

(* ------------------------------------------------------------------ *)
(** ** Lifecycle invariants *)

Lemma repeat_snoc {A : Type} (a : A) (n : nat) :
  repeat a n ++ [a] = repeat a (S n).
Proof.
  induction n as [|n IH]; [reflexivity|].
  cbn [repeat app]. rewrite IH. reflexivity.
Qed.

Lemma filter_idem {A : Type} (f : A -> bool) (l : list A) :
  filter f (filter f l) = filter f l.
Proof.
  induction l as [|a l IH]; [reflexivity|].
  cbn [filter]. destruct (f a) eqn:E; [|exact IH].
  cbn [filter]. rewrite E, IH. reflexivity.
Qed.

Lemma on_first_ids (id : string) (f : Elem -> Elem) (l : list Elem) :
  (forall e, el_id (f e) = el_id e) ->
  map el_id (on_first id f l) = map el_id l.
Proof.
  intro Hf. induction l as [|e l IH]; [reflexivity|].
  cbn [on_first]. destruct (String.eqb (el_id e) id); cbn [map].
  - rewrite Hf. reflexivity.
  - rewrite IH. reflexivity.
Qed.

Lemma Forall_overlay_ids (l l' : list Elem) :
  map el_id l' = map el_id l ->
  Forall (fun e => el_id e = "_minimap_"%string) l ->
  Forall (fun e => el_id e = "_minimap_"%string) l'.
Proof.
  intros E H.
  rewrite <- (Forall_map el_id (fun i => i = "_minimap_"%string)) in *.
  rewrite E. exact H.
Qed.

Lemma call_ids (active : option Canvas) (m : Method) (w : World) :
  map el_id (body (call active m w)) = map el_id (body w).
Proof.
  pose proof (proj1 (call_keeps active m w)) as H.
  apply (f_equal (map (fun v => fst (fst v)))) in H.
  rewrite !map_map in H. exact H.
Qed.

Lemma remove_first_Forall (P : Elem -> Prop) (id : string) (l : list Elem) :
  Forall P l -> Forall P (remove_first id l).
Proof.
  induction 1 as [|e l He Hl IH]; cbn [remove_first]; [constructor|].
  destruct (String.eqb (el_id e) id); [assumption | constructor; assumption].
Qed.

Lemma stacked_call (active : option Canvas) (m : Method) (w : World) :
  stacked w -> stacked (call active m w).
Proof.
  unfold stacked.
  destruct (call_keeps active m w) as (_ & -> & ->).
  intros (H1 & H2 & H3 & H4 & H5 & H6). repeat split; try assumption.
  apply (Forall_overlay_ids (body w)); [apply call_ids | exact H6].
Qed.

Lemma stacked_unload (active : option Canvas) (w : World) :
  stacked w -> stacked (unloadMinimap active w).
Proof.
  unfold stacked, unloadMinimap. destruct active; [|tauto].
  cbn [plugin prototype registered canvas_event body].
  intros (H1 & H2 & H3 & H4 & H5 & H6). repeat split; try assumption.
  - unfold Events.off. apply Forall_forall. intros r Hr.
    apply filter_In in Hr. rewrite Forall_forall in H5. apply H5, Hr.
  - repeat match goal with
           | |- context [if ?c then _ else _] => destruct c
           end;
      repeat apply remove_first_Forall; exact H6.
Qed.

Lemma stacked_setup (active : option Canvas) (w : World) :
  stacked w -> stacked (fst (setupMinimap active w)).
Proof.
  unfold setupMinimap. intro H.
  destruct (negb _); [exact H|].
  destruct active as [c|]; [|exact H].
  destruct H as (H1 & H2 & H3 & H4 & H5 & H6).
  unfold stacked.
  cbn [fst plugin prototype registered canvas_event body patchCanvas
       markMoved markDirty markViewportChanged requestFrame events_of].
  rewrite H1, H2, H3, H4, !repeat_snoc.
  repeat split.
  - unfold Events.on. apply Forall_app. split; [exact H5|].
    constructor; [reflexivity | constructor].
  - match goal with
    | |- Forall _ (on_first _ _ ?l) =>
        apply (Forall_overlay_ids l); [apply on_first_ids; reflexivity|]
    end.
    destruct (select_empty "_minimap_" (body w)); [|exact H6].
    apply Forall_app. split; [exact H6|].
    constructor; [reflexivity | constructor].
Qed.

(** Every state the plugin can reach is stacked. *)
Lemma reachable_stacked (s : Settings.t) (w : World) :
  reachable s w -> stacked w.
Proof.
  induction 1 as [|w w' _ IH Hstep].
  - unfold stacked. cbn. repeat split; constructor.
  - destruct Hstep;
      try (apply stacked_call; exact IH).
    + apply stacked_setup; exact IH.
    + apply stacked_unload; exact IH.
    + apply stacked_setup, stacked_unload; exact IH.
    + exact IH.
Qed.

(** Wrappers only pile up.  In every reachable state one call of a
    patched method dispatches its event once for every time
    [patchCanvas] ran on a canvas; [unloadMinimap] never takes a
    wrapper off. *)
Theorem wrappers_accumulate (s : Settings.t) (w : World)
    (active : option Canvas) :
  reachable s w ->
  let n := registered (plugin w) in
  dispatched (call active (markMoved (prototype w)) w)
  = dispatched w ++ repeat CANVAS_MOVED n /\
  dispatched (call active (markDirty (prototype w)) w)
  = dispatched w ++ repeat CANVAS_DIRTY n /\
  dispatched (call active (markViewportChanged (prototype w)) w)
  = dispatched w ++ repeat CANVAS_VIEWPORT_CHANGED n /\
  dispatched (call active (requestFrame (prototype w)) w)
  = dispatched w ++ repeat CANVAS_TICK n /\
  (forall canvas,
     prototype (unloadMinimap (Some canvas) w) = prototype w /\
     registered (plugin (unloadMinimap (Some canvas) w)) = n /\
     (Settings.enabled (settings (plugin w)) = true ->
      registered (plugin (fst (reloadMinimap (Some canvas) w))) = S n)).
Proof.
  intro Hr. destruct (reachable_stacked s w Hr) as (H1 & H2 & H3 & H4 & _).
  cbv zeta. rewrite !dispatched_call, H1, H2, H3, H4.
  repeat split.
  intro He. unfold reloadMinimap, setupMinimap.
  cbn [unloadMinimap plugin settings]. rewrite He. reflexivity.
Qed.

Lemma wrappers_accumulate_witness :
  dispatched
    (call None
       (requestFrame
          (prototype (fst (reloadMinimap (Some canvas_g1_n1) world_loaded))))
       (fst (reloadMinimap (Some canvas_g1_n1) world_loaded)))
  = [CANVAS_TICK; CANVAS_TICK].
Proof.
  assert (Hr : reachable DEFAULT_SETTINGS
                 (fst (reloadMinimap (Some canvas_g1_n1) world_loaded))).
  { eapply reach_step; [exact world_loaded_reachable | apply step_reload]. }
  destruct (wrappers_accumulate DEFAULT_SETTINGS _ None Hr)
    as (_ & _ & _ & H & _).
  exact H.
Defined.

Lemma handlers_untracked (evs : Events.t) (type : CanvasEventType) :
  Forall (fun r => fst r = CANVAS_TICK) evs ->
  type <> CANVAS_TICK ->
  Events.handlers evs type = [].
Proof.
  intros H Ht. unfold Events.handlers.
  induction H as [|r evs Hr _ IH]; [reflexivity|].
  cbn [filter]. rewrite Hr.
  destruct type; try (exfalso; apply Ht; reflexivity); exact IH.
Qed.

Lemma call_silent (active : option Canvas) (m : Method) (w : World) :
  (forall t, In t (events_of m) ->
             Events.handlers (canvas_event (plugin w)) t = []) ->
  body (call active m w) = body w.
Proof.
  induction m as [|type next IH]; intro H; cbn [call]; [reflexivity|].
  cbn [events_of] in H.
  unfold dispatchCanvasEvent.
  rewrite (proj1 (proj2 (call_keeps active next w))).
  rewrite (H type) by (apply in_or_app; right; left; reflexivity).
  cbn [fold_left body]. apply IH.
  intros t Ht. apply H. apply in_or_app. left; exact Ht.
Qed.

(** Only [CANVAS_TICK] has a subscriber.  In every reachable state a
    call of [markMoved], [markDirty] or [markViewportChanged]
    dispatches events nobody listens to and leaves the whole document
    as it is: node moves and edits do not redraw the minimap. *)
Theorem untracked_events_do_nothing (s : Settings.t) (w : World)
    (active : option Canvas) :
  reachable s w ->
  body (call active (markMoved (prototype w)) w) = body w /\
  body (call active (markDirty (prototype w)) w) = body w /\
  body (call active (markViewportChanged (prototype w)) w) = body w.
Proof.
  intro Hr.
  destruct (reachable_stacked s w Hr) as (H1 & H2 & H3 & _ & H5 & _).
  repeat split; apply call_silent; intros t Ht;
    [rewrite H1 in Ht | rewrite H2 in Ht | rewrite H3 in Ht];
    apply repeat_spec in Ht; subst t;
    apply handlers_untracked; try exact H5; discriminate.
Qed.

Lemma untracked_events_do_nothing_witness :
  body (call (Some canvas_g1_n1) (markMoved (prototype world_loaded))
          world_loaded)
  = body world_loaded.
Proof.
  exact (proj1 (untracked_events_do_nothing DEFAULT_SETTINGS world_loaded
                  (Some canvas_g1_n1) world_loaded_reachable)).
Defined.

Lemma unload_overlay_count (s : Settings.t) (w : World) (canvas : Canvas) :
  reachable s w ->
  overlay_count (body (unloadMinimap (Some canvas) w)) = 0%nat.
Proof.
  intro Hr. pose proof (reachable_overlay_unique s w Hr) as Hc.
  unfold unloadMinimap. cbn [body].
  assert (H1 : overlay_count
                 (if negb (select_empty "_minimap_" (body w))
                  then remove_first "_minimap_" (body w)
                  else body w) = 0%nat).
  { destruct (select_empty "_minimap_" (body w)) eqn:E; cbn [negb].
    - apply select_empty_count; exact E.
    - apply overlay_count_remove_overlay; exact Hc. }
  match goal with
  | |- overlay_count (if ?c then remove_first ?i ?l else _) = _ =>
      pose proof (overlay_count_remove_first_le i l); destruct c
  end; lia.
Qed.

(** A reload on an active canvas with the minimap enabled ends with
    exactly one overlay element and exactly one subscription. *)
Theorem reload_single_overlay (s : Settings.t) (w : World) (canvas : Canvas) :
  reachable s w ->
  Settings.enabled (settings (plugin w)) = true ->
  let w' := fst (reloadMinimap (Some canvas) w) in
  canvas_event (plugin w') = [(CANVAS_TICK, onCanvasUpdate)] /\
  overlay_count (body w') = 1%nat.
Proof.
  intros Hr He.
  pose proof (unload_overlay_count s w canvas Hr) as Hb.
  destruct (reachable_stacked s w Hr) as (_ & _ & _ & _ & H5 & _).
  cbv zeta. unfold reloadMinimap, setupMinimap.
  assert (Hs : settings (plugin (unloadMinimap (Some canvas) w))
               = settings (plugin w)) by reflexivity.
  rewrite Hs, He. cbn [negb fst plugin canvas_event body].
  assert (Hbp : body (patchCanvas (Some canvas)
                        (unloadMinimap (Some canvas) w))
                = body (unloadMinimap (Some canvas) w)) by reflexivity.
  split.
  - cbn [patchCanvas unloadMinimap plugin canvas_event settings
         canvas_bounds canvas_patched registered].
    unfold Events.on.
    assert (E : Events.off (canvas_event (plugin w)) CANVAS_TICK
                  onCanvasUpdate = []).
    { unfold Events.off. induction H5 as [|r evs Hr0 _ IH]; [reflexivity|].
      cbn [filter]. rewrite Hr0. destruct (snd r). cbn. exact IH. }
    rewrite E. reflexivity.
  - rewrite overlay_count_on_first by reflexivity.
    rewrite Hbp.
    rewrite (proj2 (select_empty_count _) Hb).
    rewrite overlay_count_app, Hb. reflexivity.
Qed.

Lemma reload_single_overlay_witness :
  canvas_event
    (plugin (fst (reloadMinimap (Some canvas_g1_n1) world_loaded)))
  = [(CANVAS_TICK, onCanvasUpdate)] /\
  overlay_count (body (fst (reloadMinimap (Some canvas_g1_n1) world_loaded)))
  = 1%nat.
Proof.
  exact (reload_single_overlay DEFAULT_SETTINGS world_loaded canvas_g1_n1
           world_loaded_reachable eq_refl).
Defined.

Lemma unload_body_empty (s : Settings.t) (w : World) (canvas : Canvas) :
  reachable s w -> body (unloadMinimap (Some canvas) w) = [].
Proof.
  intro Hr.
  pose proof (unload_overlay_count s w canvas Hr) as Hc.
  destruct (stacked_unload (Some canvas) w (reachable_stacked s w Hr))
    as (_ & _ & _ & _ & _ & Hids).
  destruct (body (unloadMinimap (Some canvas) w)) as [|e l]; [reflexivity|].
  exfalso. inversion Hids as [|? ? He _]; subst.
  unfold overlay_count in Hc. cbn [filter] in Hc.
  rewrite He in Hc. cbn in Hc. discriminate Hc.
Qed.

(** Unloading twice is unloading once, in every reachable state and
    with or without an active canvas. *)
Theorem unload_idempotent (s : Settings.t) (w : World)
    (active : option Canvas) :
  reachable s w ->
  unloadMinimap active (unloadMinimap active w) = unloadMinimap active w.
Proof.
  intro Hr. destruct active as [c|]; [|reflexivity].
  pose proof (unload_body_empty s w c Hr) as Hb.
  assert (Hev : canvas_event (plugin (unloadMinimap (Some c) w))
                = Events.off (canvas_event (plugin w)) CANVAS_TICK
                    onCanvasUpdate) by reflexivity.
  destruct (unloadMinimap (Some c) w) as [p b pr d].
  cbn [body plugin] in Hb, Hev. subst b.
  destruct p as [st cb cp ce rg]. cbn [canvas_event] in Hev. subst ce.
  cbn [unloadMinimap body plugin settings canvas_bounds canvas_patched
       canvas_event registered prototype dispatched select_empty existsb
       negb].
  unfold Events.off. rewrite filter_idem. reflexivity.
Qed.

Lemma unload_idempotent_witness :
  unloadMinimap (Some canvas_g1_n1)
    (unloadMinimap (Some canvas_g1_n1) world_loaded)
  = unloadMinimap (Some canvas_g1_n1) world_loaded.
Proof.
  exact (unload_idempotent DEFAULT_SETTINGS world_loaded (Some canvas_g1_n1)
           world_loaded_reachable).
Defined.

(* ------------------------------------------------------------------ *)
(** ** Panning and zooming the minimap's own view *)

(** While a button is held, a mouse move shifts the view box against
    the mouse by the mouse displacement scaled from minimap pixels to
    view units, keeps its size, and remembers the mouse position; so
    two moves in a row end where one move to the last position
    ends. *)
Theorem pan_follows_mouse
    (s : Settings.t) (d : DragState) (x y w h c1x c1y c2x c2y : Q) :
  isSvgDragging d || isRightDragging d = true ->
  ~ w == 0 -> ~ h == 0 ->
  ~ Settings.width s == 0 -> ~ Settings.height s == 0 ->
  exists x1 y1 x2 y2,
    handleSvgMouseMove s c1x c1y d (Some (x, y, w, h))
    = Ok (mkDragState (isSvgDragging d) (isRightDragging d) c1x c1y,
          Some (x1, y1, w, h)) /\
    x1 == x - (c1x - lastX d) * (w / Settings.width s) /\
    y1 == y - (c1y - lastY d) * (h / Settings.height s) /\
    handleSvgMouseMove s c2x c2y
      (mkDragState (isSvgDragging d) (isRightDragging d) c1x c1y)
      (Some (x1, y1, w, h))
    = Ok (mkDragState (isSvgDragging d) (isRightDragging d) c2x c2y,
          Some (x2, y2, w, h)) /\
    x2 == x - (c2x - lastX d) * (w / Settings.width s) /\
    y2 == y - (c2y - lastY d) * (h / Settings.height s).
Proof.
  intros Hd Hw Hh Hsw Hsh. unfold handleSvgMouseMove.
  cbn [isSvgDragging isRightDragging lastX lastY]. rewrite Hd.
  do 4 eexists.
  split; [reflexivity|].
  split; [field; split; assumption|].
  split; [field; split; assumption|].
  split; [reflexivity|].
  split; field; split; assumption.
Qed.

Lemma pan_follows_mouse_witness :
  exists x1 y1,
    handleSvgMouseMove DEFAULT_SETTINGS 10 10
      (svg_mousedown 0 0 0 drag_initial) (Some (0, 0, 800, 600))
    = Ok (mkDragState true false 10 10, Some (x1, y1, 800, 600)) /\
    x1 == 0 - (10 - 0) * (800 / 400).
Proof.
  destruct (pan_follows_mouse DEFAULT_SETTINGS
              (svg_mousedown 0 0 0 drag_initial) 0 0 800 600 10 10 20 20)
    as (x1 & y1 & _ & _ & H1 & H2 & _);
    try reflexivity; try (cbn; intro H; discriminate H).
  exists x1, y1. split; [exact H1 | exact H2].
Defined.

(** With no button held (before any press, or after the release) a
    mouse move changes nothing, a click is handled as usual, and a
    press of a button other than the left and the right one does not
    start a drag. *)
Theorem idle_mouse_is_ignored
    (d : DragState) (s : Settings.t) (cx cy : Q)
    (vb : option (Q * Q * Q * Q)) (active_canvas : option Canvas)
    (svg : SvgRoot) (getBBox : option SVGRect) (p : Vector2.t)
    (ctrl : bool) (button : Z) :
  let d' := handleSvgMouseUp d in
  handleSvgMouseMove s cx cy d' vb = Ok (d', vb) /\
  handleSvgMouseMove s cx cy drag_initial vb = Ok (drag_initial, vb) /\
  svg_click_guarded d' s active_canvas svg getBBox p ctrl
  = svg_click s active_canvas svg getBBox p ctrl /\
  (button <> 0%Z -> button <> 2%Z -> svg_mousedown button cx cy d' = d').
Proof.
  cbv zeta. unfold handleSvgMouseUp, handleSvgMouseMove, svg_click_guarded,
    svg_mousedown.
  destruct d as [[|] [|] lx ly]; cbn [isSvgDragging isRightDragging orb];
    repeat split; intros;
    destruct (Z.eqb_spec button 0); try contradiction;
    destruct (Z.eqb_spec button 2); try contradiction; reflexivity.
Qed.

Lemma idle_mouse_is_ignored_witness :
  svg_mousedown 1 5 5 (handleSvgMouseUp (svg_mousedown 0 0 0 drag_initial))
  = handleSvgMouseUp (svg_mousedown 0 0 0 drag_initial).
Proof.
  destruct (idle_mouse_is_ignored (svg_mousedown 0 0 0 drag_initial)
              DEFAULT_SETTINGS 5 5 None None empty_svg None
              (Vector2.mk 0 0) false 1) as (_ & _ & _ & H).
  apply H; discriminate.
Defined.

(** For a stored view box whose width and height are not negative and
    a current view of positive width and height (comparisons that fail
    on a view box that is not a number), a wheel turn with the control
    key held yields a view at least 50 units wide and high and no
    larger than the stored view box (or 50, if that is smaller); a
    turn towards the user never widens the view beyond 50 or its
    current size.  Without the key the view box is left alone. *)
Theorem wheel_zoom_bounds
    (cb : BoundingBox.t) (deltaY : Q) (mouse : Vector2.t)
    (x y w h : Q) (vb : option (Q * Q * Q * Q)) :
  0 <= BoundingBox.width cb -> 0 <= BoundingBox.height cb ->
  0 < w -> 0 < h ->
  (exists nx ny nw nh,
     svg_wheel cb true deltaY mouse (Some (x, y, w, h))
     = Ok (Some (nx, ny, nw, nh)) /\
     50 <= nw <= Qmax 50 (BoundingBox.width cb) /\
     50 <= nh <= Qmax 50 (BoundingBox.height cb) /\
     (deltaY < 0 -> nw <= Qmax 50 w /\ nh <= Qmax 50 h)) /\
  svg_wheel cb false deltaY mouse vb = Ok vb.
Proof.
  intros _ _ Hw Hh.
  split; [|reflexivity].
  unfold svg_wheel. do 4 eexists. split; [reflexivity|].
  split; [split; [apply Q.le_max_l|];
          apply Q.max_le_compat_l; apply Q.le_min_l|].
  split; [split; [apply Q.le_max_l|];
          apply Q.max_le_compat_l; apply Q.le_min_l|].
  intro Hd. apply Qlt_bool_iff in Hd. rewrite Hd.
  assert (E : 9 / 10 == 9 # 10) by reflexivity.
  split; apply Q.max_le_compat_l;
    (eapply Qle_trans; [apply Q.le_min_r|]); rewrite E; lra.
Qed.

Lemma wheel_zoom_bounds_witness :
  exists nx ny nw nh,
    svg_wheel (BoundingBox.mk (-10) (-10) 210 210) true (-1)
      (Vector2.mk 100 100) (Some (-10, -10, 220, 220))
    = Ok (Some (nx, ny, nw, nh)) /\
    50 <= nw <= Qmax 50 (BoundingBox.width (BoundingBox.mk (-10) (-10) 210 210)).
Proof.
  assert (Hbw : 0 <= BoundingBox.width (BoundingBox.mk (-10) (-10) 210 210))
    by (intro H; discriminate H).
  assert (Hbh : 0 <= BoundingBox.height (BoundingBox.mk (-10) (-10) 210 210))
    by (intro H; discriminate H).
  assert (Hw : 0 < 220) by reflexivity.
  destruct (wheel_zoom_bounds (BoundingBox.mk (-10) (-10) 210 210) (-1)
              (Vector2.mk 100 100) (-10) (-10) 220 220 None Hbw Hbh Hw Hw)
    as ((nx & ny & nw & nh & H1 & H2 & _) & _).
  exists nx, ny, nw, nh. split; [exact H1 | exact H2].
Defined.

(** Zooming keeps the point under the cursor in place: its position
    relative to the view (as a fraction of the view's width and
    height) is the same before and after. *)
Theorem wheel_zoom_anchor
    (cb : BoundingBox.t) (deltaY : Q) (mouse : Vector2.t) (x y w h : Q) :
  ~ w == 0 -> ~ h == 0 ->
  exists nx ny nw nh,
    svg_wheel cb true deltaY mouse (Some (x, y, w, h))
    = Ok (Some (nx, ny, nw, nh)) /\
    (Vector2.x mouse - nx) * w == (Vector2.x mouse - x) * nw /\
    (Vector2.y mouse - ny) * h == (Vector2.y mouse - y) * nh.
Proof.
  intros Hw Hh. unfold svg_wheel. do 4 eexists.
  split; [reflexivity|].
  split; field; assumption.
Qed.

Lemma wheel_zoom_anchor_witness :
  exists nx ny nw nh,
    svg_wheel (BoundingBox.mk 0 0 400 300) true (-1) (Vector2.mk 100 100)
      (Some (0, 0, 400, 300))
    = Ok (Some (nx, ny, nw, nh)) /\
    (100 - nx) * 400 == (100 - 0) * nw.
Proof.
  destruct (wheel_zoom_anchor (BoundingBox.mk 0 0 400 300) (-1)
              (Vector2.mk 100 100) 0 0 400 300)
    as (nx & ny & nw & nh & H1 & H2 & _);
    try (intro H; discriminate H).
  exists nx, ny, nw, nh. split; [exact H1 | exact H2].
Defined.

(* ------------------------------------------------------------------ *)
(** ** Resizing the overlay *)

(** An overlay that is at least 200 by 150 stays at least 200 by 150,
    whichever area is dragged and wherever the mouse goes. *)
Theorem resize_keeps_minimum
    (a : ResizeArea) (startX startY : Q) (start : DivBox)
    (clientX clientY : Q) :
  200 <= div_width start -> 150 <= div_height start ->
  200 <= div_width (resize_area a startX startY start clientX clientY) /\
  150 <= div_height (resize_area a startX startY start clientX clientY).
Proof.
  intros Hw Hh. unfold resize_area, resize_handleMouseMove.
  pose proof (Q.le_max_l 200 (div_width start + (clientX - startX))).
  pose proof (Q.le_max_l 150 (div_height start + (clientY - startY))).
  destruct a; cbn [startResize_axes fst snd];
    repeat match goal with
           | |- context [Qle_bool ?u ?v] =>
               let E := fresh "E" in
               destruct (Qle_bool u v) eqn:E;
               [apply Qle_bool_iff in E|]
           end;
    cbn [div_width div_height]; split; assumption.
Qed.

Lemma resize_keeps_minimum_witness :
  200 <= div_width (resize_area area_left 0 0 (mkDivBox 400 300 100 100)
                      500 0) /\
  150 <= div_height (resize_area area_left 0 0 (mkDivBox 400 300 100 100)
                       500 0).
Proof.
  apply (resize_keeps_minimum area_left 0 0 (mkDivBox 400 300 100 100) 500 0);
    cbn; lra.
Defined.

(** Dragging from the left or from the top keeps the opposite edge
    where it was; dragging from the right or the bottom keeps the
    position. *)
Theorem resize_keeps_far_edge
    (horizontal : Horizontal) (vertical : Vertical) (startX startY : Q)
    (start : DivBox) (clientX clientY : Q) :
  let b := resize_handleMouseMove horizontal vertical startX startY start
             clientX clientY in
  match horizontal with
  | h_left => div_left b + div_width b == div_left start + div_width start
  | _ => div_left b = div_left start
  end /\
  match vertical with
  | v_top => div_top b + div_height b == div_top start + div_height start
  | _ => div_top b = div_top start
  end.
Proof.
  cbv zeta. unfold resize_handleMouseMove.
  destruct horizontal, vertical;
    repeat match goal with
           | |- context [Qle_bool ?u ?v] => destruct (Qle_bool u v)
           end;
    cbn [div_width div_height div_left div_top];
    split; try reflexivity; ring.
Qed.

(** The four edge areas are not locked to their axis: dragging the
    right or the left edge also sets the height from the vertical
    mouse movement, and dragging the top or the bottom edge also sets
    the width from the horizontal one. *)
Theorem edge_area_resizes_both
    (startX startY : Q) (start : DivBox) (clientX clientY : Q) :
  div_height (resize_area area_right startX startY start clientX clientY)
  = Qmax 150 (div_height start + (clientY - startY)) /\
  div_height (resize_area area_left startX startY start clientX clientY)
  = Qmax 150 (div_height start + (clientY - startY)) /\
  div_width (resize_area area_top startX startY start clientX clientY)
  = Qmax 200 (div_width start + (clientX - startX)) /\
  div_width (resize_area area_bottom startX startY start clientX clientY)
  = Qmax 200 (div_width start + (clientX - startX)).
Proof.
  unfold resize_area, resize_handleMouseMove.
  cbn [startResize_axes fst snd].
  repeat split;
    repeat match goal with
           | |- context [Qle_bool ?u ?v] => destruct (Qle_bool u v)
           end;
    reflexivity.
Qed.

(* ------------------------------------------------------------------ *)
(** ** Preset positions *)

(** [moveToPresetPosition] does nothing without an active canvas or
    without an overlay; otherwise the position it stores puts the
    overlay 20 pixels from both window edges of the configured
    corner. *)
Theorem preset_position_gap
    (s : Settings.t) (active : option Canvas) (body : list Elem)
    (innerWidth innerHeight : Q) :
  (moveToPresetPosition s active body innerWidth innerHeight = None <->
   active = None \/ select_empty "_minimap_" body = true) /\
  (forall x y,
     moveToPresetPosition s active body innerWidth innerHeight = Some (x, y) ->
     match Settings.side s with
     | top_right =>
         innerWidth - (x + Settings.width s) == 20 /\ y == 20
     | top_left => x == 20 /\ y == 20
     | bottom_left =>
         x == 20 /\ innerHeight - (y + Settings.height s) == 20
     | bottom_right =>
         innerWidth - (x + Settings.width s) == 20 /\
         innerHeight - (y + Settings.height s) == 20
     end).
Proof.
  unfold moveToPresetPosition. split.
  - destruct active as [c|]; [|split; [left; reflexivity | reflexivity]].
    destruct (select_empty "_minimap_" body).
    + split; [right; reflexivity | reflexivity].
    + split; [discriminate|]. intros [H | H]; discriminate H.
  - intros x y H.
    destruct active as [c|]; [|discriminate H].
    destruct (select_empty "_minimap_" body); [discriminate H|].
    destruct (Settings.side s); injection H as <- <-; split;
      try reflexivity; ring.
Qed.

Lemma preset_position_gap_witness :
  1000 - (1000 - 400 - 20 + Settings.width DEFAULT_SETTINGS) == 20 /\
  800 - (800 - 300 - 20 + Settings.height DEFAULT_SETTINGS) == 20.
Proof.
  exact (proj2 (preset_position_gap DEFAULT_SETTINGS (Some canvas_g1_n1)
                  (body world_loaded) 1000 800)
           (1000 - 400 - 20) (800 - 300 - 20) eq_refl).
Defined.

(* ------------------------------------------------------------------ *)
(** ** Translations *)

(** A key with a non-empty English text never comes back empty or
    undefined: the English text is returned for every language but
    zh-cn, and for zh-cn whenever its table lacks the key or holds an
    empty text; otherwise the zh-cn text is returned. *)
Theorem t_falls_back_to_english
    (en zhCn : Locale) (moment_locale str v : string) :
  en str = Some v -> v <> ""%string ->
  exists v',
    t en zhCn moment_locale str = Some v' /\ v' <> ""%string /\
    (moment_locale <> "zh-cn"%string -> v' = v) /\
    (moment_locale = "zh-cn"%string ->
     match zhCn str with
     | Some z => if String.eqb z "" then v' = v else v' = z
     | None => v' = v
     end).
Proof.
  intros He Hv. unfold t, systemLocale.
  destruct (String.eqb_spec moment_locale "en") as [-> | Hen].
  - rewrite He. destruct (String.eqb_spec v "") as [Hv' | _];
      [contradiction|].
    exists v. split; [reflexivity|]. split; [exact Hv|].
    split; [reflexivity | discriminate].
  - destruct (String.eqb_spec moment_locale "zh-cn") as [-> | Hzh].
    + destruct (zhCn str) as [z|] eqn:Ez.
      * destruct (String.eqb_spec z "") as [-> | Hz].
        -- exists v. split; [exact He|]. split; [exact Hv|].
           split; reflexivity.
        -- exists z. split; [reflexivity|]. split; [exact Hz|].
           split; [intro H; contradiction H; reflexivity | reflexivity].
      * exists v. split; [exact He|]. split; [exact Hv|].
        split; reflexivity.
    + exists v. split; [exact He|]. split; [exact Hv|].
      split; [reflexivity | intro H; contradiction].
Qed.

Lemma t_falls_back_to_english_witness :
  t sample_en sample_zhCn "zh-cn" "toggle" = Some "Toggle minimap"%string /\
  t sample_en sample_zhCn "zh-cn" "reload" = Some "reload-zh"%string /\
  t sample_en sample_zhCn "fr" "reload" = Some "Reload minimap"%string.
Proof.
  destruct (t_falls_back_to_english sample_en sample_zhCn "zh-cn" "toggle"
              "Toggle minimap" eq_refl) as (v1 & H1 & _ & _ & K1);
    [discriminate|].
  destruct (t_falls_back_to_english sample_en sample_zhCn "zh-cn" "reload"
              "Reload minimap" eq_refl) as (v2 & H2 & _ & _ & K2);
    [discriminate|].
  destruct (t_falls_back_to_english sample_en sample_zhCn "fr" "reload"
              "Reload minimap" eq_refl) as (v3 & H3 & _ & K3 & _);
    [discriminate|].
  specialize (K1 eq_refl). specialize (K2 eq_refl).
  cbn in K1, K2. rewrite K1 in H1. rewrite K2 in H2.
  rewrite (K3 ltac:(discriminate)) in H3.
  split; [exact H1|]. split; [exact H2 | exact H3].
Defined.

(* ------------------------------------------------------------------ *)
(** ** Navigation and tracking together *)

(** The point a PAN click recenters on lies inside the target box. *)
Theorem pan_target_inside
    (canvas : Canvas) (b : BoundingBox.t) (cx cy : Q) :
  BoundingBox.minX b <= BoundingBox.maxX b ->
  BoundingBox.minY b <= BoundingBox.maxY b ->
  navigate PAN (Some canvas) b = [panTo cx cy] ->
  BoundingBox.contains b (Vector2.mk cx cy) = true.
Proof.
  intros Hx Hy H. cbn [navigate] in H. injection H as <- <-.
  apply contains_iff. cbn [Vector2.x Vector2.y].
  assert (Ex : BoundingBox.maxX b - BoundingBox.minX b
               == 2 * ((BoundingBox.maxX b - BoundingBox.minX b) / 2))
    by field.
  assert (Ey : BoundingBox.maxY b - BoundingBox.minY b
               == 2 * ((BoundingBox.maxY b - BoundingBox.minY b) / 2))
    by field.
  set (hx := (BoundingBox.maxX b - BoundingBox.minX b) / 2) in *.
  set (hy := (BoundingBox.maxY b - BoundingBox.minY b) / 2) in *.
  lra.
Qed.

Lemma pan_target_inside_witness :
  BoundingBox.contains (Node.bbox (plain_node "n1" 50 50 20 20))
    (Vector2.mk (50 + (50 + 20 - 50) / 2) (50 + (50 + 20 - 50) / 2)) = true.
Proof.
  apply (pan_target_inside canvas_g1_n1
           (Node.bbox (plain_node "n1" 50 50 20 20))).
  - cbn. lra.
  - cbn. lra.
  - reflexivity.
Defined.

Lemma svg_click_node_rects (s : Settings.t) (active_canvas : option Canvas)
    (svg svg' : SvgRoot) (getBBox : option SVGRect) (p : Vector2.t)
    (ctrl : bool) :
  node_rects svg' = node_rects svg ->
  svg_click s active_canvas svg' getBBox p ctrl
  = svg_click s active_canvas svg getBBox p ctrl.
Proof.
  intro H. unfold svg_click, click_inside, resolve_target, hit_rects.
  rewrite H. reflexivity.
Qed.

(** Tracking the viewport does not change what a click does: on every
    body element, the click handler gives the same result before and
    after [renderCanvasViewport] moved the indicator. *)
Theorem click_unaffected_by_tracking
    (s tracked : Settings.t) (viewed active_canvas : option Canvas)
    (l : list Elem) (i : nat) (e e' : Elem)
    (getBBox : option SVGRect) (p : Vector2.t) (ctrl : bool) :
  nth_error l i = Some e ->
  nth_error (renderCanvasViewport tracked viewed l) i = Some e' ->
  svg_click s active_canvas (el_svg e') getBBox p ctrl
  = svg_click s active_canvas (el_svg e) getBBox p ctrl.
Proof.
  intros He He'.
  pose proof (renderCanvasViewport_hit_view tracked viewed l) as H.
  apply (f_equal (fun m => nth_error m i)) in H.
  rewrite !nth_error_map, He, He' in H. cbn [option_map] in H.
  injection H as _ _ Hr.
  apply svg_click_node_rects. exact Hr.
Qed.

Lemma click_unaffected_by_tracking_witness :
  svg_click DEFAULT_SETTINGS (Some canvas_g1_n1)
    (on_viewport_svg (placed (BoundingBox.mk 0 0 100 100))
       (scene_of DEFAULT_SETTINGS canvas_g1_n1))
    (Some (mkSVGRect 0 0 200 200)) (Vector2.mk 60 60) false
  = svg_click DEFAULT_SETTINGS (Some canvas_g1_n1)
      (scene_of DEFAULT_SETTINGS canvas_g1_n1)
      (Some (mkSVGRect 0 0 200 200)) (Vector2.mk 60 60) false.
Proof.
  apply (click_unaffected_by_tracking DEFAULT_SETTINGS DEFAULT_SETTINGS
           (Some (mkCanvas [] [] (BoundingBox.mk 0 0 100 100)))
           (Some canvas_g1_n1)
           [mkElem "_minimap_" (scene_of DEFAULT_SETTINGS canvas_g1_n1)]
           0
           (mkElem "_minimap_" (scene_of DEFAULT_SETTINGS canvas_g1_n1))
           (mkElem "_minimap_"
              (on_viewport_svg (placed (BoundingBox.mk 0 0 100 100))
                 (scene_of DEFAULT_SETTINGS canvas_g1_n1))));
    reflexivity.
Defined.
